(** * SwaggerForge: the Swagger service (src/services/swaggerService.ts)

    A shallow embedding of [parseSwagger], [resolveRef], [generateSampleJson]
    and [generateTestCases], and the properties of the specification that
    concern them; then of the exporters [generatePythonScripts] and
    [generatePostman], up to the call of [downloadFile] that ends them.

    The service works on untyped documents ([any]), so the embedding works
    on JSON values and spells out what JavaScript does on each shape of
    value: truthiness, property reads on objects, arrays and strings, the
    [TypeError] of a property read on [null]/[undefined] or of a call of a
    method that the value does not have, and string conversion.

    Modelling boundaries, stated once:
    - numbers are integers ([Z]); no claim depends on a fractional value;
    - strings are byte strings, [toUpperCase] and indexing act on ASCII;
    - a property read sees own properties only.  The members inherited from
      the built-in prototypes ([constructor], [toString], ...) are
      functions, not JSON data; none of the fixed keys read by the service
      names one, so only a reference pointer with such a segment is outside
      the embedding.  The one object that the service reads under
      arbitrary keys and then calls a method on, [folders] in
      [generatePostman], is modelled with its inherited names;
    - the fields of an object are listed in enumeration order, each key
      once, as [JSON.parse] and the service itself build them;
    - [console.error] in the [catch] branch has no effect on what is
      returned and is left out;
    - the JavaScript call stack is unbounded here. *)

From Stdlib Require Import String Ascii List ZArith Lia Bool Arith.
From Stdlib Require Import DecimalString.
Import ListNotations.
Open Scope string_scope.

(** ** Outcomes: a value, a thrown exception, or fuel exhausted *)

Inductive exn : Type :=
| TypeError.

Inductive outcome (A : Type) : Type :=
| Ret (a : A)
| Raise (e : exn)
| NoFuel.

Arguments Ret {A} a.
Arguments Raise {A} e.
Arguments NoFuel {A}.

Definition bind {A B : Type} (m : outcome A) (f : A -> outcome B) : outcome B :=
  match m with
  | Ret a => f a
  | Raise e => Raise e
  | NoFuel => NoFuel
  end.

Notation "x <- m ;; k" := (bind m (fun x => k))
  (at level 61, m at next level, right associativity).

(** [try { body } catch (e) { handler }]: every exception is caught. *)
Definition try_catch {A : Type} (body : outcome A) (handler : exn -> outcome A) : outcome A :=
  match body with
  | Raise e => handler e
  | other => other
  end.

Definition returns {A : Type} (m : outcome A) : Prop := exists a, m = Ret a.

(** ** JSON values *)

#[local] Set Warnings "-register-all".

Inductive json : Type :=
| JUndef
| JNull
| JBool (b : bool)
| JNum (n : Z)
| JStr (s : string)
| JArr (items : list json)
| JObj (fields : list (string * json)).

(** The fields of an object are kept in JavaScript's enumeration order:
    array-index keys in ascending order first, then the other keys in
    insertion order. *)
Definition obj : Type := list (string * json).

Definition truthy (v : json) : bool :=
  match v with
  | JUndef | JNull => false
  | JBool b => b
  | JNum n => negb (n =? 0)%Z
  | JStr s => negb (s =? "")
  | JArr _ | JObj _ => true
  end.

Definition nullish (v : json) : bool :=
  match v with
  | JUndef | JNull => true
  | _ => false
  end.

Definition is_undef (v : json) : bool :=
  match v with
  | JUndef => true
  | _ => false
  end.

(** [v === "lit"] *)
Definition str_is (v : json) (lit : string) : bool :=
  match v with
  | JStr s => s =? lit
  | _ => false
  end.

(** [typeof v === 'object'], which holds of [null] and of arrays too. *)
Definition typeof_object (v : json) : bool :=
  match v with
  | JNull | JArr _ | JObj _ => true
  | _ => false
  end.

Definition is_array (v : json) : bool :=
  match v with
  | JArr _ => true
  | _ => false
  end.

(** ** Keys, indices and decimal numerals *)

Definition string_of_nat (n : nat) : string :=
  NilEmpty.string_of_uint (Nat.to_uint n).

Definition string_of_Z (z : Z) : string :=
  NilZero.string_of_int (Z.to_int z).

(** A key is an array index when it is the canonical decimal numeral of a
    number below 2^32 - 1. *)
Definition index_of_key (k : string) : option nat :=
  match NilEmpty.uint_of_string k with
  | Some u =>
      let n := Nat.of_uint u in
      if (string_of_nat n =? k) && (N.of_nat n <? 4294967295)%N
      then Some n else None
  | None => None
  end.

Fixpoint lookup (k : string) (m : obj) : option json :=
  match m with
  | [] => None
  | (k', v) :: rest => if k' =? k then Some v else lookup k rest
  end.

Definition has_key (k : string) (m : obj) : bool :=
  match lookup k m with
  | Some _ => true
  | None => false
  end.

(** [v[k]] for a value that is neither [null] nor [undefined]. *)
Definition prop (v : json) (k : string) : json :=
  match v with
  | JObj m =>
      match lookup k m with
      | Some x => x
      | None => JUndef
      end
  | JArr l =>
      if k =? "length" then JNum (Z.of_nat (length l))
      else match index_of_key k with
           | Some i => nth i l JUndef
           | None => JUndef
           end
  | JStr s =>
      if k =? "length" then JNum (Z.of_nat (String.length s))
      else match index_of_key k with
           | Some i =>
               match String.get i s with
               | Some c => JStr (String c "")
               | None => JUndef
               end
           | None => JUndef
           end
  | _ => JUndef
  end.

(** [v[k]] in general: reading a property of [null] or [undefined] throws. *)
Definition get (v : json) (k : string) : outcome json :=
  if nullish v then Raise TypeError else Ret (prop v k).

(** [v?.[k]] *)
Definition opt_get (v : json) (k : string) : json :=
  if nullish v then JUndef else prop v k.

Definition index_keys (n : nat) : list string :=
  map string_of_nat (seq 0 n).

(** [Object.keys(v)] *)
Definition object_keys (v : json) : outcome (list string) :=
  match v with
  | JUndef | JNull => Raise TypeError
  | JObj m => Ret (map fst m)
  | JArr l => Ret (index_keys (length l))
  | JStr s => Ret (index_keys (String.length s))
  | JBool _ | JNum _ => Ret []
  end.

(** The own enumerable properties of a value, as the spread syntax
    [{...v}] copies them. *)
Definition own_entries (v : json) : obj :=
  match v with
  | JObj m => m
  | JArr l => combine (index_keys (length l)) l
  | _ => []
  end.

(** Defining property [k] on an object: an existing key keeps its place; a
    new array-index key goes among the index keys, in ascending order; any
    other new key goes last. *)
Fixpoint obj_insert_index (i : nat) (k : string) (v : json) (m : obj) : obj :=
  match m with
  | [] => [(k, v)]
  | (k', v') :: rest =>
      match index_of_key k' with
      | Some j =>
          if (i <? j)%nat then (k, v) :: m
          else (k', v') :: obj_insert_index i k v rest
      | None => (k, v) :: m
      end
  end.

Fixpoint obj_replace (k : string) (v : json) (m : obj) : obj :=
  match m with
  | [] => []
  | (k', v') :: rest =>
      if k' =? k then (k, v) :: rest else (k', v') :: obj_replace k v rest
  end.

Definition obj_set (m : obj) (k : string) (v : json) : obj :=
  if has_key k m then obj_replace k v m
  else match index_of_key k with
       | Some i => obj_insert_index i k v m
       | None => (m ++ [(k, v)])%list
       end.

(** [{ ...combined, ...generated }] *)
Definition spread (combined : obj) (generated : json) : obj :=
  fold_left (fun acc kv => obj_set acc (fst kv) (snd kv)) (own_entries generated) combined.

(** ** Strings *)

(** [s.split(sep)] for a one-character separator: never the empty list. *)
Fixpoint split_on (sep : ascii) (s : string) : list string :=
  match s with
  | EmptyString => [""]
  | String c rest =>
      if Ascii.eqb c sep then "" :: split_on sep rest
      else match split_on sep rest with
           | [] => [String c ""]
           | hd :: tl => String c hd :: tl
           end
  end.

(** [ref.replace(/^#\//, '')] *)
Definition strip_pointer_prefix (ref : string) : string :=
  match ref with
  | String "#" (String "/" rest) => rest
  | _ => ref
  end.

Definition upper_ascii (c : ascii) : ascii :=
  let n := nat_of_ascii c in
  if ((97 <=? n) && (n <=? 122))%nat then ascii_of_nat (n - 32) else c.

Fixpoint toUpperCase (s : string) : string :=
  match s with
  | EmptyString => EmptyString
  | String c rest => String (upper_ascii c) (toUpperCase rest)
  end.

Fixpoint join (sep : string) (l : list string) : string :=
  match l with
  | [] => ""
  | [x] => x
  | x :: rest => x ++ sep ++ join sep rest
  end.

(** ** [resolveRef] *)

Fixpoint walk (parts : list string) (current : json) : outcome json :=
  match parts with
  | [] => Ret current
  | part :: rest =>
      next <- get current part ;;
      if is_undef next then Ret JNull else walk rest next
  end.

Definition resolveRef (ref : string) (fullDoc : json) : outcome json :=
  if negb (truthy (JStr ref)) || negb (truthy fullDoc) then Ret JNull
  else walk (split_on "/" (strip_pointer_prefix ref)) fullDoc.

(** ** Measures on documents: size, and the reference pointers that occur *)

Fixpoint size (v : json) : nat :=
  match v with
  | JArr l => S (list_sum (map size l))
  | JObj m => S (list_sum (map (fun kv => size (snd kv)) m))
  | _ => 1
  end.

Definition ref_of_fields (m : obj) : list string :=
  match lookup "$ref" m with
  | Some (JStr r) => [r]
  | _ => []
  end.

Fixpoint refs (v : json) : list string :=
  match v with
  | JArr l => flat_map refs l
  | JObj m => (ref_of_fields m ++ flat_map (fun kv => refs (snd kv)) m)%list
  | _ => []
  end.

(** ** The set of in-flight pointers ([seenRefs], a [Set<string>]) *)

Definition refset : Type := list string.

Definition set_has (r : string) (seen : refset) : bool :=
  existsb (String.eqb r) seen.

Definition set_add (r : string) (seen : refset) : refset :=
  if set_has r seen then seen else r :: seen.

Definition set_delete (r : string) (seen : refset) : refset :=
  filter (fun x => negb (x =? r)) seen.

(** ** [JSON.stringify(value, null, 2)] *)

Definition newline : string := String (ascii_of_nat 10) "".

Definition hex_digit (n : nat) : ascii :=
  if (n <? 10)%nat then ascii_of_nat (48 + n) else ascii_of_nat (87 + n).

Definition escape_char (c : ascii) : string :=
  let n := nat_of_ascii c in
  if (n =? 34)%nat then "\" ++ String c ""
  else if (n =? 92)%nat then "\\"
  else if (n =? 8)%nat then "\b"
  else if (n =? 12)%nat then "\f"
  else if (n =? 10)%nat then "\n"
  else if (n =? 13)%nat then "\r"
  else if (n =? 9)%nat then "\t"
  else if (n <? 32)%nat then "\u00" ++ String (hex_digit (n / 16)) (String (hex_digit (n mod 16)) "")
  else String c "".

Fixpoint escape (s : string) : string :=
  match s with
  | EmptyString => ""
  | String c rest => escape_char c ++ escape rest
  end.

Definition quote (s : string) : string :=
  String (ascii_of_nat 34) (escape s ++ String (ascii_of_nat 34) "").

Definition bracket (opening closing indent : string) (parts : list string) : string :=
  match parts with
  | [] => opening ++ closing
  | _ =>
      let inner := indent ++ "  " in
      opening ++ newline ++ inner ++ join ("," ++ newline ++ inner) parts
      ++ newline ++ indent ++ closing
  end.

(** [None] stands for the [undefined] that [JSON.stringify] yields on
    [undefined]; inside an array it is printed as [null], inside an object
    the property is left out. *)
Fixpoint stringify (indent : string) (v : json) : option string :=
  match v with
  | JUndef => None
  | JNull => Some "null"
  | JBool b => Some (if b then "true" else "false")
  | JNum n => Some (string_of_Z n)
  | JStr s => Some (quote s)
  | JArr l =>
      Some (bracket "[" "]" indent
              (map (fun x => match stringify (indent ++ "  ") x with
                             | Some t => t
                             | None => "null"
                             end) l))
  | JObj m =>
      Some (bracket "{" "}" indent
              (flat_map (fun kv => match stringify (indent ++ "  ") (snd kv) with
                                   | Some t => [quote (fst kv) ++ ": " ++ t]
                                   | None => []
                                   end) m))
  end.

Definition JSON_stringify (v : json) : json :=
  match stringify "" v with
  | Some t => JStr t
  | None => JUndef
  end.

(** ** String conversion, as a template literal performs it

    An array is joined with commas, [null] and [undefined] elements giving
    the empty string.  A plain object gives ["[object Object]"], unless it
    has an own [toString] property: that one is JSON data, hence not
    callable, and the conversion throws. *)
Fixpoint toStr (v : json) : outcome string :=
  match v with
  | JUndef => Ret "undefined"
  | JNull => Ret "null"
  | JBool b => Ret (if b then "true" else "false")
  | JNum n => Ret (string_of_Z n)
  | JStr s => Ret s
  | JArr l =>
      parts <- (fix elements (l : list json) : outcome (list string) :=
                  match l with
                  | [] => Ret []
                  | x :: rest =>
                      t <- (if nullish x then Ret "" else toStr x) ;;
                      ts <- elements rest ;;
                      Ret (t :: ts)
                  end) l ;;
      Ret (join "," parts)
  | JObj m => if has_key "toString" m then Raise TypeError else Ret "[object Object]"
  end.

(** ** [generateSampleJson] *)

Section SampleGeneration.

(** The document against which pointers are resolved. *)
Variable fullDoc : json.

(** What [new Date().toISOString()] returns; the clock is read as one
    instant for the whole call. *)
Variable now : string.

(** The [switch (s.type)] branch for ['string']. *)
Definition string_sample (s : json) : json :=
  if str_is (prop s "format") "date-time" then JStr now
  else if str_is (prop s "format") "date" then JStr (hd "" (split_on "T" now))
  else if str_is (prop s "format") "email" then JStr "user@example.com"
  else if str_is (prop s "format") "uuid" then JStr "123e4567-e89b-12d3-a456-426614174000"
  else if str_is (prop s "format") "uri" then JStr "https://example.com"
  else if truthy (prop s "enum") then prop (prop s "enum") "0"
  else JStr "sample_string".

(** The tail of [generate]: [example], [default], then the type switch. *)
Definition leaf_sample (s : json) : json :=
  if negb (is_undef (prop s "example")) then prop s "example"
  else if negb (is_undef (prop s "default")) then prop s "default"
  else if str_is (prop s "type") "string" then string_sample s
  else if str_is (prop s "type") "number" || str_is (prop s "type") "integer" then JNum 0
  else if str_is (prop s "type") "boolean" then JBool true
  else JNull.

(** A run of [generate] takes the set of in-flight pointers and gives it
    back with its outcome. *)
Definition generator : Type := json -> refset -> outcome json * refset.

(** [s.allOf.forEach(sub => ...)], with [combined] as accumulator. *)
Fixpoint allOf_loop (gen : generator) (subs : list json) (combined : obj)
                    (seen : refset) : outcome json * refset :=
  match subs with
  | [] => (Ret (JObj combined), seen)
  | sub :: rest =>
      match gen sub seen with
      | (Ret generated, seen1) =>
          allOf_loop gen rest
            (if typeof_object generated then spread combined generated else combined)
            seen1
      | (Raise e, seen1) => (Raise e, seen1)
      | (NoFuel, seen1) => (NoFuel, seen1)
      end
  end.

(** [obj[key] = v] on a plain object: the key [__proto__] reaches the
    prototype setter and defines no own property. *)
Definition assign (o : obj) (key : string) (v : json) : obj :=
  if key =? "__proto__" then o else obj_set o key v.

(** [Object.keys(s.properties).forEach(key => ...)] *)
Fixpoint properties_loop (gen : generator) (props : json) (keys : list string)
                         (o : obj) (seen : refset) : outcome json * refset :=
  match keys with
  | [] => (Ret (JObj o), seen)
  | key :: rest =>
      match gen (prop props key) seen with
      | (Ret v, seen1) => properties_loop gen props rest (assign o key v) seen1
      | (Raise e, seen1) => (Raise e, seen1)
      | (NoFuel, seen1) => (NoFuel, seen1)
      end
  end.

(** The body of the inner function [generate]; [self] stands for the
    recursive call.  Where the body reads a property, the value read from
    is truthy, so the read cannot throw and [prop] is used.  A truthy
    [$ref] that is not a string is never in the set and has no [replace]
    method; a truthy [allOf] that is not an array has no [forEach]. *)
Definition generate_body (self : generator) (s : json) (seen : refset)
  : outcome json * refset :=
  if negb (truthy s) then (Ret JNull, seen)
  else if truthy (prop s "$ref") then
    match prop s "$ref" with
    | JStr r =>
        if set_has r seen then (Ret (JObj []), seen)
        else
          match resolveRef r fullDoc with
          | Ret resolved =>
              if truthy resolved then
                match self resolved (set_add r seen) with
                | (Ret result, seen1) => (Ret result, set_delete r seen1)
                | (Raise e, seen1) => (Raise e, seen1)
                | (NoFuel, seen1) => (NoFuel, seen1)
                end
              else (Ret (JObj []), seen)
          | Raise e => (Raise e, seen)
          | NoFuel => (NoFuel, seen)
          end
    | _ => (Raise TypeError, seen)
    end
  else if truthy (prop s "allOf") then
    match prop s "allOf" with
    | JArr subs => allOf_loop self subs [] seen
    | _ => (Raise TypeError, seen)
    end
  else if truthy (prop s "oneOf") || truthy (prop s "anyOf") then
    self (prop (if truthy (prop s "oneOf") then prop s "oneOf" else prop s "anyOf") "0")
         seen
  else if (str_is (prop s "type") "object" || negb (truthy (prop s "type")))
          && truthy (prop s "properties") then
    match object_keys (prop s "properties") with
    | Ret keys => properties_loop self (prop s "properties") keys [] seen
    | Raise e => (Raise e, seen)
    | NoFuel => (NoFuel, seen)
    end
  else if str_is (prop s "type") "array" && truthy (prop s "items") then
    match self (prop s "items") seen with
    | (Ret item, seen1) => (Ret (JArr [item]), seen1)
    | (Raise e, seen1) => (Raise e, seen1)
    | (NoFuel, seen1) => (NoFuel, seen1)
    end
  else (Ret (leaf_sample s), seen).

(** [generate], with the depth of recursion bounded by [fuel]. *)
Fixpoint generate (fuel : nat) : generator :=
  match fuel with
  | O => fun _ seen => (NoFuel, seen)
  | S fuel' => generate_body (generate fuel')
  end.

(** Fuel that is enough for [generate] on [s] with [seen] in flight, when
    every pointer of [s] and of the document is in [universe]. *)
Definition unseen (universe : list string) (seen : refset) : nat :=
  length (filter (fun r => negb (set_has r seen)) universe).

Definition fuel_for (universe : list string) (seen : refset) (s : json) : nat :=
  S (unseen universe seen * S (size fullDoc) + size s).

Definition universe_of (s : json) : list string := (refs fullDoc ++ refs s)%list.

(** [generate(s)] with the set [seen] in flight, run to completion. *)
Definition sample_of (s : json) (seen : refset) : outcome json * refset :=
  generate (fuel_for (universe_of s) seen s) s seen.

(** [generateSampleJson(schema, fullDoc)]: [seenRefs] is a fresh set. *)
Definition generateSampleJson (schema : json) : outcome json :=
  if negb (truthy schema) then Ret (JStr "")
  else
    try_catch
      (sample <- fst (sample_of schema []) ;;
       Ret (JSON_stringify sample))
      (fun _ => Ret (JStr "Check Swagger Schema")).

End SampleGeneration.

(** ** Endpoints and test cases *)

(** [interface Endpoint].  [path] and [method] are object keys, hence
    strings; the other fields are copied from the untyped operation object
    and hold whatever value the document has there ([JUndef] when the
    optional field is absent). *)
Record Endpoint : Type := mkEndpoint {
  path : string;
  method : string;
  summary : json;
  parameters : json;
  responses : json;
  requestBody : json;
  operationId : json;
  tags : json
}.

(** [interface TestCase]: ten string fields, named after the column
    headers. *)
Record TestCase : Type := mkTestCase {
  Test_Case_ID : string;
  TC_Endpoint : string;
  TC_Method : string;
  Test_Scenario : string;
  Test_Steps : string;
  Prerequisite : string;
  Test_Data : string;
  Expected_Result : string;
  Actual_Result : string;
  Status : string
}.

Fixpoint map_outcome {A B : Type} (f : A -> outcome B) (l : list A) : outcome (list B) :=
  match l with
  | [] => Ret []
  | x :: rest =>
      y <- f x ;;
      ys <- map_outcome f rest ;;
      Ret (y :: ys)
  end.

(** ** [parseSwagger] *)

Definition or_else (v fallback : json) : json :=
  if truthy v then v else fallback.

(** The object literal pushed for operation [op] found under [path] and
    [method]; reading a field of a [null] operation throws. *)
Definition endpoint_of (pathKey methodKey : string) (op : json) : outcome Endpoint :=
  if nullish op then Raise TypeError
  else
    Ret {| path := pathKey;
           method := toUpperCase methodKey;
           summary := or_else (prop op "summary")
                        (or_else (prop op "description")
                           (JStr (toUpperCase methodKey ++ " " ++ pathKey)));
           parameters := or_else (prop op "parameters") (JArr []);
           responses := or_else (prop op "responses") (JObj []);
           requestBody := prop op "requestBody";
           operationId := prop op "operationId";
           tags := prop op "tags" |}.

(** The inner [forEach], over the methods of one path item. *)
Definition path_endpoints (paths : json) (pathKey : string) : outcome (list Endpoint) :=
  methods <- object_keys (prop paths pathKey) ;;
  map_outcome (fun methodKey => endpoint_of pathKey methodKey (prop (prop paths pathKey) methodKey))
    methods.

Definition parseSwagger (data : json) : outcome (list Endpoint) :=
  declared <- get data "paths" ;;
  let paths := or_else declared (JObj []) in
  pathKeys <- object_keys paths ;;
  per_path <- map_outcome (path_endpoints paths) pathKeys ;;
  Ret (concat per_path).

(** ** [generateTestCases] *)

Section TestCaseSynthesis.

Variable fullDoc : json.
Variable now : string.

Definition dquote : string := String (ascii_of_nat 34) "".

(** [ep.requestBody?.content?.['application/json']?.schema] *)
Definition body_schema (ep : Endpoint) : json :=
  opt_get (opt_get (opt_get (requestBody ep) "content") "application/json") "schema".

(** One element of the [map]: [`${p.name}=${p.example || 'value'}`]. *)
Definition param_text (p : json) : outcome string :=
  name <- get p "name" ;;
  name_text <- toStr name ;;
  example_text <- (if truthy (prop p "example") then toStr (prop p "example") else Ret "value") ;;
  Ret (name_text ++ "=" ++ example_text).

(** The [Test Data] of the positive case. *)
Definition positive_test_data (ep : Endpoint) (params : list json) : outcome string :=
  if truthy (body_schema ep) then
    sample <- generateSampleJson fullDoc now (body_schema ep) ;;
    sample_text <- toStr sample ;;
    Ret ("Request Body:" ++ newline ++ sample_text)
  else if (0 <? length params)%nat then
    texts <- map_outcome param_text params ;;
    Ret ("Query/Path Params: " ++ join ", " texts)
  else Ret "Valid parameters as per Swagger spec".

(** [ep.parameters.filter((p) => p.required)] *)
Fixpoint filter_required (params : list json) : outcome (list json) :=
  match params with
  | [] => Ret []
  | p :: rest =>
      required <- get p "required" ;;
      kept <- filter_required rest ;;
      Ret (if truthy required then p :: kept else kept)
  end.

Definition test_id (idCounter : nat) : string := "TC-" ++ string_of_nat idCounter.

Definition successStatus (ep : Endpoint) : string :=
  if method ep =? "POST" then "201 Created" else "200 OK".

Definition has_body_method (ep : Endpoint) : bool :=
  (method ep =? "POST") || (method ep =? "PUT") || (method ep =? "PATCH").

Definition prepare (ep : Endpoint) : string :=
  "1. Prepare " ++ method ep ++ " request for " ++ path ep ++ newline.

Definition positive_case (ep : Endpoint) (testData : string) (id : nat) : TestCase :=
  {| Test_Case_ID := test_id id;
     TC_Endpoint := path ep;
     TC_Method := method ep;
     Test_Scenario := "Verify successful " ++ method ep ++ " request to " ++ path ep;
     Test_Steps := prepare ep ++ "2. Send request with valid parameters/body" ++ newline
                   ++ "3. Verify response status and body";
     Prerequisite := "API Service is up and running";
     Test_Data := testData;
     Expected_Result := "Response status should be " ++ successStatus ep
                        ++ " and body should contain expected fields.";
     Actual_Result := "";
     Status := "" |}.

Definition unauthorized_case (ep : Endpoint) (id : nat) : TestCase :=
  {| Test_Case_ID := test_id id;
     TC_Endpoint := path ep;
     TC_Method := method ep;
     Test_Scenario := "Verify " ++ method ep ++ " request to " ++ path ep
                      ++ " without authentication";
     Test_Steps := prepare ep ++ "2. Send request without Auth token" ++ newline
                   ++ "3. Verify response status";
     Prerequisite := "Endpoint requires authentication";
     Test_Data := "No Auth Header";
     Expected_Result := "Response status should be 401 Unauthorized.";
     Actual_Result := "";
     Status := "" |}.

Definition missing_mandatory_case (ep : Endpoint) (name : string) (id : nat) : TestCase :=
  {| Test_Case_ID := test_id id;
     TC_Endpoint := path ep;
     TC_Method := method ep;
     Test_Scenario := "Verify " ++ method ep ++ " request to " ++ path ep
                      ++ " with missing mandatory parameters";
     Test_Steps := prepare ep ++ "2. Remove mandatory parameter: " ++ name ++ newline
                   ++ "3. Send request" ++ newline ++ "4. Verify error response";
     Prerequisite := "API Service is up and running";
     Test_Data := "Missing " ++ name;
     Expected_Result := "Response status should be 400 Bad Request with validation error message.";
     Actual_Result := "";
     Status := "" |}.

Definition content_type_case (ep : Endpoint) (id : nat) : TestCase :=
  {| Test_Case_ID := test_id id;
     TC_Endpoint := path ep;
     TC_Method := method ep;
     Test_Scenario := "Verify " ++ method ep ++ " request to " ++ path ep
                      ++ " with unsupported Content-Type";
     Test_Steps := prepare ep ++ "2. Set Content-Type to 'text/plain'" ++ newline
                   ++ "3. Send request" ++ newline ++ "4. Verify error response";
     Prerequisite := "API Service is up and running";
     Test_Data := "Content-Type: text/plain";
     Expected_Result := "Response status should be 415 Unsupported Media Type.";
     Actual_Result := "";
     Status := "" |}.

Definition malformed_body_case (ep : Endpoint) (id : nat) : TestCase :=
  {| Test_Case_ID := test_id id;
     TC_Endpoint := path ep;
     TC_Method := method ep;
     Test_Scenario := "Verify " ++ method ep ++ " request to " ++ path ep
                      ++ " with malformed JSON body";
     Test_Steps := prepare ep ++ "2. Provide malformed JSON string in body" ++ newline
                   ++ "3. Send request" ++ newline ++ "4. Verify error response";
     Prerequisite := "API Service is up and running";
     Test_Data := "{ " ++ dquote ++ "invalid" ++ dquote ++ ": json }";
     Expected_Result := "Response status should be 400 Bad Request.";
     Actual_Result := "";
     Status := "" |}.

Definition invalid_types_case (ep : Endpoint) (id : nat) : TestCase :=
  {| Test_Case_ID := test_id id;
     TC_Endpoint := path ep;
     TC_Method := method ep;
     Test_Scenario := "Verify " ++ method ep ++ " request to " ++ path ep
                      ++ " with invalid data types";
     Test_Steps := prepare ep
                   ++ "2. Provide string where integer is expected (or vice versa)" ++ newline
                   ++ "3. Send request" ++ newline ++ "4. Verify error response";
     Prerequisite := "API Service is up and running";
     Test_Data := "Invalid data types for parameters";
     Expected_Result := "Response status should be 400 Bad Request or 422 Unprocessable Entity.";
     Actual_Result := "";
     Status := "" |}.

(** The state of the loop: the array [testCases] and the counter
    [idCounter], both shared by all the iterations. *)
Record synth_state : Type := mkState {
  testCases : list TestCase;
  idCounter : nat
}.

(** [testCases.push({ 'Test Case ID': `TC-${idCounter++}`, ... })]: the
    record is built with the current value of the counter, appended, and
    the counter is incremented. *)
Definition push_case (make : nat -> TestCase) (st : synth_state) : synth_state :=
  {| testCases := (testCases st ++ [make (idCounter st)])%list;
     idCounter := S (idCounter st) |}.

(** The body of [endpoints.forEach] on an endpoint whose [parameters] is
    the array [params].  [mandatoryParams[0].name] is read from an entry
    that [filter] has already read, so the read cannot throw; its
    conversion to text can. *)
Definition endpoint_pushes (ep : Endpoint) (params : list json) (st : synth_state)
  : outcome synth_state :=
  testData <- positive_test_data ep params ;;
  let st1 := push_case (positive_case ep testData) st in
  let st2 := push_case (unauthorized_case ep) st1 in
  mandatoryParams <- filter_required params ;;
  st3 <- match mandatoryParams with
         | [] => Ret st2
         | first :: _ =>
             name <- toStr (prop first "name") ;;
             Ret (push_case (missing_mandatory_case ep name) st2)
         end ;;
  let st4 := if has_body_method ep
             then push_case (malformed_body_case ep) (push_case (content_type_case ep) st3)
             else st3 in
  Ret (push_case (invalid_types_case ep) st4).

(** The body of [endpoints.forEach].  A [parameters] value that is not an
    array has no [filter] method, so the body throws on it whatever
    happened before. *)
Definition endpoint_step (ep : Endpoint) (st : synth_state) : outcome synth_state :=
  match parameters ep with
  | JArr params => endpoint_pushes ep params st
  | _ => Raise TypeError
  end.

(** [endpoints.forEach(...)] *)
Fixpoint forEach_endpoint (endpoints : list Endpoint) (st : synth_state)
  : outcome synth_state :=
  match endpoints with
  | [] => Ret st
  | ep :: rest =>
      st' <- endpoint_step ep st ;;
      forEach_endpoint rest st'
  end.

Definition generateTestCases (endpoints : list Endpoint) : outcome (list TestCase) :=
  st <- forEach_endpoint endpoints {| testCases := []; idCounter := 1 |} ;;
  Ret (testCases st).

End TestCaseSynthesis.

(** ** [downloadFile], as the exporters use it

    [downloadFile] hands its three arguments to the browser (a [Blob], a
    link, a click).  An exporter calls it once, last; the embedding of an
    exporter returns the arguments of that call. *)
Record download : Type := mkDownload {
  content : string;
  fileName : string;
  contentType : string
}.

(** ** [generatePythonScripts] *)

Definition is_alnum (c : ascii) : bool :=
  let n := nat_of_ascii c in
  (((48 <=? n) && (n <=? 57)) || ((65 <=? n) && (n <=? 90)) || ((97 <=? n) && (n <=? 122)))%nat.

Definition lower_ascii (c : ascii) : ascii :=
  let n := nat_of_ascii c in
  if ((65 <=? n) && (n <=? 90))%nat then ascii_of_nat (n + 32) else c.

Fixpoint toLowerCase (s : string) : string :=
  match s with
  | EmptyString => EmptyString
  | String c rest => String (lower_ascii c) (toLowerCase rest)
  end.

(** [text.replace(/[^a-zA-Z0-9]/g, '_')] *)
Fixpoint replace_non_alnum (text : string) : string :=
  match text with
  | EmptyString => EmptyString
  | String c rest =>
      String (if is_alnum c then c else "_"%char) (replace_non_alnum rest)
  end.

(** [ep.summary.replace(...).toLowerCase() || `test_endpoint_${index}`],
    for a summary that is a string. *)
Definition methodName (text : string) (index : nat) : string :=
  if toLowerCase (replace_non_alnum text) =? ""
  then "test_endpoint_" ++ string_of_nat index
  else toLowerCase (replace_non_alnum text).

Definition python_header : string :=
  "import requests" ++ newline
  ++ "import unittest" ++ newline
  ++ newline
  ++ "BASE_URL = " ++ dquote ++ "http://localhost:8080" ++ dquote ++ newline
  ++ newline
  ++ "class TestAPI(unittest.TestCase):" ++ newline.

Definition python_footer : string :=
  newline
  ++ "if __name__ == " ++ dquote ++ "__main__" ++ dquote ++ ":" ++ newline
  ++ "    unittest.main()" ++ newline.

(** The text appended for one endpoint.  A summary that is not a string
    has no [replace] method. *)
Definition python_test (ep : Endpoint) (index : nat) : outcome string :=
  match summary ep with
  | JStr text =>
      Ret (newline
           ++ "    def test_" ++ methodName text index ++ "(self):" ++ newline
           ++ "        " ++ dquote ++ dquote ++ dquote ++ text
           ++ dquote ++ dquote ++ dquote ++ newline
           ++ "        url = f" ++ dquote ++ "{BASE_URL}" ++ path ep ++ dquote ++ newline
           ++ "        response = requests.request(" ++ dquote ++ method ep ++ dquote
           ++ ", url)" ++ newline
           ++ "        self.assertIn(response.status_code, [200, 201])" ++ newline
           ++ "        print(f" ++ dquote
           ++ "Tested {ep.path} - Status: {response.status_code}" ++ dquote ++ ")" ++ newline)
  | _ => Raise TypeError
  end.

(** [endpoints.forEach((ep, index) => { script += ... })] *)
Fixpoint python_tests (endpoints : list Endpoint) (index : nat) (script : string)
  : outcome string :=
  match endpoints with
  | [] => Ret script
  | ep :: rest =>
      test <- python_test ep index ;;
      python_tests rest (S index) (script ++ test)
  end.

Definition generatePythonScripts (endpoints : list Endpoint) : outcome download :=
  script <- python_tests endpoints 0 python_header ;;
  Ret {| content := script ++ python_footer;
         fileName := "api_automation_tests.py";
         contentType := "text/x-python" |}.

(** Characters of a Python identifier that the sanitized name can have. *)
Definition is_name_char (c : ascii) : bool :=
  let n := nat_of_ascii c in
  (((48 <=? n) && (n <=? 57)) || ((97 <=? n) && (n <=? 122)) || (n =? 95))%nat.

Fixpoint all_chars (test : ascii -> bool) (s : string) : bool :=
  match s with
  | EmptyString => true
  | String c rest => test c && all_chars test rest
  end.

(** ** [generatePostman] *)

(** [JSON.stringify(value)], without indentation. *)
Fixpoint stringify_compact (v : json) : option string :=
  match v with
  | JUndef => None
  | JNull => Some "null"
  | JBool b => Some (if b then "true" else "false")
  | JNum n => Some (string_of_Z n)
  | JStr s => Some (quote s)
  | JArr l =>
      Some ("[" ++ join "," (map (fun x => match stringify_compact x with
                                           | Some t => t
                                           | None => "null"
                                           end) l) ++ "]")
  | JObj m =>
      Some ("{" ++ join "," (flat_map (fun kv => match stringify_compact (snd kv) with
                                                 | Some t => [quote (fst kv) ++ ":" ++ t]
                                                 | None => []
                                                 end) m) ++ "}")
  end.

(** The text that a template literal or a [Blob] makes of the result of
    [JSON.stringify]. *)
Definition text_of_json (rendered : option string) : string :=
  match rendered with
  | Some t => t
  | None => "undefined"
  end.

(** [folders] is created as [{}]: besides its own properties, a read
    [folders[tag]] sees the members that every object inherits from
    [Object.prototype], which are functions (an object for [__proto__]),
    truthy and without a [push] method. *)
Definition inherited_keys : list string :=
  ["constructor"; "hasOwnProperty"; "isPrototypeOf"; "propertyIsEnumerable";
   "toLocaleString"; "toString"; "valueOf"; "__proto__";
   "__defineGetter__"; "__defineSetter__"; "__lookupGetter__"; "__lookupSetter__"].

Definition inherited (key : string) : bool := existsb (String.eqb key) inherited_keys.

(** [ep.tags?.[0] || 'General'] *)
Definition first_tag (ep : Endpoint) : json :=
  or_else (opt_get (tags ep) "0") (JStr "General").

Definition base_scripts : list string :=
  ["pm.test(" ++ dquote ++ "Status code is 200/201" ++ dquote ++ ", function () {";
   "    pm.expect(pm.response.code).to.be.oneOf([200, 201]);";
   "});";
   "pm.test(" ++ dquote ++ "Response time is less than 800ms" ++ dquote ++ ", function () {";
   "    pm.expect(pm.response.responseTime).to.be.below(800);";
   "});";
   "pm.test(" ++ dquote ++ "Response is valid JSON" ++ dquote ++ ", function () {";
   "    pm.response.to.be.withBody;";
   "    pm.response.to.be.json;";
   "});"].

Definition schema_scripts (schema : json) : list string :=
  ["pm.test(" ++ dquote ++ "Response schema is valid" ++ dquote ++ ", function () {";
   "    var schema = " ++ text_of_json (stringify_compact schema) ++ ";";
   "    pm.response.to.have.jsonSchema(schema);";
   "});"].

(** [ep.responses['200'] || ep.responses['201']]; the first read throws
    when [responses] is [null] or [undefined]. *)
Definition successResponse (ep : Endpoint) : outcome json :=
  ok <- get (responses ep) "200" ;;
  Ret (if truthy ok then ok else prop (responses ep) "201").

(** [successResponse?.content?.['application/json']?.schema] *)
Definition response_schema (response : json) : json :=
  opt_get (opt_get (opt_get response "content") "application/json") "schema".

Definition testScripts (ep : Endpoint) : outcome (list string) :=
  response <- successResponse ep ;;
  Ret (base_scripts
       ++ (if truthy (response_schema response)
           then schema_scripts (response_schema response) else []))%list.

(** [s.split('/').filter(Boolean)] *)
Definition path_segments (s : string) : list string :=
  filter (fun part => negb (part =? "")) (split_on "/" s).

(** The object literal [item]. *)
Definition postman_item (ep : Endpoint) (scripts : list string) : json :=
  JObj [("name", summary ep);
        ("request",
         JObj [("method", JStr (method ep));
               ("header", JArr [JObj [("key", JStr "Content-Type");
                                      ("value", JStr "application/json")]]);
               ("url", JObj [("raw", JStr ("{{baseUrl}}" ++ path ep));
                             ("host", JArr [JStr "{{baseUrl}}"]);
                             ("path", JArr (map JStr (path_segments (path ep))))]);
               ("description", summary ep)]);
        ("event",
         JArr [JObj [("listen", JStr "test");
                     ("script", JObj [("exec", JArr (map JStr scripts));
                                      ("type", JStr "text/javascript")])]])].

(** The body of [endpoints.forEach], on the object [folders].  The tag is
    turned into a property key; an own property is an array of items; a
    key that [folders] inherits is truthy, so no array is created for it,
    and the [push] at the end throws. *)
Definition postman_step (ep : Endpoint) (folders : obj) : outcome obj :=
  key <- toStr (first_tag ep) ;;
  let folders1 := if has_key key folders || inherited key then folders
                  else obj_set folders key (JArr []) in
  scripts <- testScripts ep ;;
  match lookup key folders1 with
  | Some (JArr items) =>
      Ret (obj_replace key (JArr (items ++ [postman_item ep scripts])) folders1)
  | _ => Raise TypeError
  end.

Fixpoint forEach_postman (endpoints : list Endpoint) (folders : obj) : outcome obj :=
  match endpoints with
  | [] => Ret folders
  | ep :: rest =>
      folders' <- postman_step ep folders ;;
      forEach_postman rest folders'
  end.

(** The object literal [collection]. *)
Definition postman_collection (folders : obj) (name : string) : json :=
  JObj [("info",
         JObj [("name", JStr name);
               ("schema",
                JStr "https://schema.getpostman.com/json/collection/v2.1.0/collection.json")]);
        ("item",
         JArr (map (fun kv => JObj [("name", JStr (fst kv)); ("item", snd kv)]) folders))].

Definition generatePostman (endpoints : list Endpoint) (name : string) : outcome download :=
  folders <- forEach_postman endpoints [] ;;
  Ret {| content := text_of_json (stringify "" (postman_collection folders name));
         fileName := "Postman_Collection.json";
         contentType := "application/json" |}.

(** The number of items in all the folders. *)
Definition item_count (folders : obj) : nat :=
  list_sum (map (fun kv => match snd kv with
                           | JArr items => length items
                           | _ => 0
                           end) folders).

(** What the loop keeps true of [folders]: the names are distinct, every
    folder is an array, and no folder has an inherited name. *)
Definition folders_ok (folders : obj) : Prop :=
  NoDup (map fst folders)
  /\ Forall (fun kv => exists items, snd kv = JArr items) folders
  /\ (forall key, inherited key = true -> has_key key folders = false).

(** Two operations with the same first tag, one without tags. *)
Definition tagged_endpoints : list Endpoint :=
  [{| path := "/pets"; method := "GET"; summary := JStr "List pets";
      parameters := JArr []; responses := JObj []; requestBody := JUndef;
      operationId := JUndef; tags := JArr [JStr "pets"; JStr "read"] |};
   {| path := "/health"; method := "GET"; summary := JStr "Health";
      parameters := JArr []; responses := JObj []; requestBody := JUndef;
      operationId := JUndef; tags := JUndef |};
   {| path := "/pets"; method := "POST"; summary := JStr "Add a pet";
      parameters := JArr []; responses := JObj []; requestBody := JUndef;
      operationId := JUndef; tags := JArr [JStr "pets"] |}].

(** An operation whose first tag is the name of a member of
    [Object.prototype]. *)
Definition constructor_tagged : Endpoint :=
  {| path := "/build"; method := "POST"; summary := JStr "Build";
     parameters := JArr []; responses := JObj []; requestBody := JUndef;
     operationId := JUndef; tags := JArr [JStr "constructor"] |}.

(** ** Vocabulary for the properties of [generate] *)

(** A run is complete when it did not stop for lack of fuel. *)
Definition complete (run : outcome json * refset) : Prop := fst run <> NoFuel.

(** A generator restores the set when every run that returns a sample
    leaves the set as it found it. *)
Definition restores (self : json -> refset -> outcome json * refset) : Prop :=
  forall s seen v seen', self s seen = (Ret v, seen') -> seen' = seen.

(** [self'] agrees with [self] on every complete run of [self]. *)
Definition extends (self' self : json -> refset -> outcome json * refset) : Prop :=
  forall s seen, complete (self s seen) -> self' s seen = self s seen.

(** ** The merge of [allOf], in the words of the specification

    The fields a member contributes to the merge: those of its sample when
    the sample is an object; a sample that is not an object is dropped. *)
Definition member_fields (v : json) : obj :=
  match v with
  | JObj m => m
  | _ => []
  end.

(** Shallow merge of [entries] into [into], later keys overwriting. *)
Definition merge_fields (entries into : obj) : obj :=
  fold_left (fun acc kv => obj_set acc (fst kv) (snd kv)) entries into.

(** The members' samples merged from left to right, from the empty
    object. *)
Definition merged_sample (samples : list json) : obj :=
  fold_left (fun acc v => merge_fields (member_fields v) acc) samples [].

(** ** Vocabulary for the properties of [generateTestCases] *)

(** The test of the [filter] callback: [p.required] is truthy. *)
Definition required_truthy (p : json) : bool := truthy (prop p "required").

(** The number of cases pushed for an endpoint: three, one more when
    some parameter passes the [filter], two more for a method with a
    body. *)
Definition case_count (ep : Endpoint) : nat :=
  3
  + (match parameters ep with
     | JArr params => if existsb required_truthy params then 1 else 0
     | _ => 0
     end)
  + (if has_body_method ep then 2 else 0).

(** The count in the words of the specification: the extra case is for a
    parameter that has [required = true]. *)
Definition required_is_true (p : json) : bool :=
  match prop p "required" with
  | JBool true => true
  | _ => false
  end.

Definition stated_case_count (ep : Endpoint) : nat :=
  3
  + (match parameters ep with
     | JArr params => if existsb required_is_true params then 1 else 0
     | _ => 0
     end)
  + (if has_body_method ep then 2 else 0).

(** Values whose conversion to text cannot throw. *)
Definition plain (v : json) : bool :=
  match v with
  | JArr _ | JObj _ => false
  | _ => true
  end.

(** A parameter entry that can be read ([null] cannot) and whose [name]
    and [example] are not objects or arrays. *)
Definition readable_param (p : json) : bool :=
  negb (nullish p) && plain (prop p "name") && plain (prop p "example").

Definition readable_endpoint (ep : Endpoint) : bool :=
  match parameters ep with
  | JArr params => forallb readable_param params
  | _ => false
  end.

(** The cases that a run of pushes appends: each maker receives the
    counter value that the previous one left. *)
Fixpoint number_cases (makers : list (nat -> TestCase)) (counter : nat) : list TestCase :=
  match makers with
  | [] => []
  | make :: rest => make counter :: number_cases rest (S counter)
  end.

(** The makers of the cases of an endpoint, in push order, given the test
    data of the positive case and the makers of the optional
    missing-parameter case. *)
Definition makers_of (ep : Endpoint) (testData : string)
           (missing : list (nat -> TestCase)) : list (nat -> TestCase) :=
  (positive_case ep testData :: unauthorized_case ep :: missing
   ++ (if has_body_method ep then [content_type_case ep; malformed_body_case ep] else [])
   ++ [invalid_types_case ep])%list.

(** [pushed] is what one iteration on [ep] appends, starting from [st]. *)
Definition pushed_by (fullDoc : json) (now : string) (ep : Endpoint)
           (st : synth_state) (pushed : list TestCase) (st' : synth_state) : Prop :=
  endpoint_step fullDoc now ep st = Ret st'
  /\ testCases st' = (testCases st ++ pushed)%list
  /\ idCounter st' = idCounter st + length pushed.

(** The blocks of cases pushed endpoint by endpoint, each iteration
    starting from the state that the previous one left. *)
Inductive numbered_blocks (fullDoc : json) (now : string)
  : synth_state -> list Endpoint -> list (list TestCase) -> synth_state -> Prop :=
| blocks_nil (st : synth_state) : numbered_blocks fullDoc now st [] [] st
| blocks_cons (st st1 st2 : synth_state) (ep : Endpoint) (rest : list Endpoint)
              (pushed : list TestCase) (blocks : list (list TestCase)) :
    pushed_by fullDoc now ep st pushed st1 ->
    numbered_blocks fullDoc now st1 rest blocks st2 ->
    numbered_blocks fullDoc now st (ep :: rest) (pushed :: blocks) st2.

(** A document without [null]. *)
Fixpoint null_free (v : json) : bool :=
  match v with
  | JUndef | JNull => false
  | JArr l => forallb null_free l
  | JObj m => forallb (fun kv => null_free (snd kv)) m
  | _ => true
  end.

(** ** Vocabulary for the properties of [parseSwagger] *)

(** [op] is the operation object found under [pathKey] and [methodKey] of
    the [paths] of [data]. *)
Definition operation_at (data : json) (pathKey methodKey : string) (op : json) : Prop :=
  let paths := or_else (prop data "paths") (JObj []) in
  (exists pathKeys, object_keys paths = Ret pathKeys /\ In pathKey pathKeys)
  /\ (exists methods,
         object_keys (prop paths pathKey) = Ret methods /\ In methodKey methods)
  /\ op = prop (prop paths pathKey) methodKey.

Definition is_lower (c : ascii) : bool :=
  ((97 <=? nat_of_ascii c) && (nat_of_ascii c <=? 122))%nat.

Fixpoint has_lower (s : string) : bool :=
  match s with
  | EmptyString => false
  | String c rest => is_lower c || has_lower rest
  end.

(** ** Example documents *)

(** The document of the end-to-end scenario of the specification: one path
    [/pets] with a [get] without parameters and a [post] with a JSON
    body. *)
Definition pets_doc : json :=
  JObj [("paths",
         JObj [("/pets",
                JObj [("get", JObj [("summary", JStr "List pets")]);
                      ("post",
                       JObj [("requestBody",
                              JObj [("content",
                                     JObj [("application/json",
                                            JObj [("schema",
                                                   JObj [("type", JStr "object");
                                                         ("properties",
                                                          JObj [("name",
                                                                 JObj [("type", JStr "string")])])])])])])])])])].

Definition pets_get : Endpoint :=
  {| path := "/pets"; method := "GET"; summary := JStr "List pets";
     parameters := JArr []; responses := JObj []; requestBody := JUndef;
     operationId := JUndef; tags := JUndef |}.

Definition pets_post : Endpoint :=
  {| path := "/pets"; method := "POST"; summary := JStr "POST /pets";
     parameters := JArr []; responses := JObj [];
     requestBody := prop (prop (prop (prop pets_doc "paths") "/pets") "post") "requestBody";
     operationId := JUndef; tags := JUndef |}.

(** An operation whose parameter has [required: 1]. *)
Definition item_get : Endpoint :=
  {| path := "/items/{id}"; method := "GET"; summary := JStr "GET /items/{id}";
     parameters := JArr [JObj [("name", JStr "id"); ("in", JStr "path");
                               ("required", JNum 1)]];
     responses := JObj []; requestBody := JUndef;
     operationId := JUndef; tags := JUndef |}.

(** An operation whose [parameters] has a [null] entry. *)
Definition null_param_get : Endpoint :=
  {| path := "/items"; method := "GET"; summary := JStr "GET /items";
     parameters := JArr [JNull];
     responses := JObj []; requestBody := JUndef;
     operationId := JUndef; tags := JUndef |}.

(** A document whose schema [A] has a property that points back to [A]. *)
Definition cyclic_doc : json :=
  JObj [("components",
         JObj [("schemas",
                JObj [("A",
                       JObj [("type", JStr "object");
                             ("properties",
                              JObj [("name", JObj [("type", JStr "string")]);
                                    ("self", JObj [("$ref", JStr "#/components/schemas/A")])])])])])].

(** Two schemas that point to each other. *)
Definition mutual_doc : json :=
  JObj [("definitions",
         JObj [("A", JObj [("properties",
                            JObj [("b", JObj [("$ref", JStr "#/definitions/B")])])]);
               ("B", JObj [("properties",
                            JObj [("a", JObj [("$ref", JStr "#/definitions/A")])])])])].

(** A document whose [components.schemas] is [null], as an empty YAML
    key gives once converted to JSON. *)
Definition empty_schemas_doc : json :=
  JObj [("components", JObj [("schemas", JNull)])].

(** ** Vocabulary for further properties *)

(** [s] has an occurrence of the character [c]. *)
Fixpoint has_char (c : ascii) (s : string) : bool :=
  match s with
  | EmptyString => false
  | String c' rest => Ascii.eqb c' c || has_char c rest
  end.

(** The keys that [Object.keys] lists, none where it throws. *)
Definition keys_or_nil (v : json) : list string :=
  match object_keys v with
  | Ret keys => keys
  | _ => []
  end.

(** The expected results of the cases of an endpoint whose [parameters]
    is the array [params], in the order in which the source pushes
    them. *)
Definition expected_results (ep : Endpoint) (params : list json) : list string :=
  ([("Response status should be " ++ successStatus ep
     ++ " and body should contain expected fields.")%string;
    "Response status should be 401 Unauthorized."]
   ++ (if existsb required_truthy params
       then ["Response status should be 400 Bad Request with validation error message."]
       else [])
   ++ (if has_body_method ep
       then ["Response status should be 415 Unsupported Media Type.";
             "Response status should be 400 Bad Request."]
       else [])
   ++ ["Response status should be 400 Bad Request or 422 Unprocessable Entity."])%list.

(** An endpoint on which the [filter] call cannot succeed: [parameters]
    is not an array, or one of its entries is [null] or [undefined]. *)
Definition bad_parameters (ep : Endpoint) : bool :=
  match parameters ep with
  | JArr params => existsb nullish params
  | _ => true
  end.

(** A test case with its identifier blanked, to compare cases up to
    numbering. *)
Definition without_id (tc : TestCase) : TestCase :=
  {| Test_Case_ID := "";
     TC_Endpoint := TC_Endpoint tc;
     TC_Method := TC_Method tc;
     Test_Scenario := Test_Scenario tc;
     Test_Steps := Test_Steps tc;
     Prerequisite := Prerequisite tc;
     Test_Data := Test_Data tc;
     Expected_Result := Expected_Result tc;
     Actual_Result := Actual_Result tc;
     Status := Status tc |}.

(** The makers of the cases that one iteration pushes: what the iteration
    computes before and between its pushes, which does not depend on the
    state of the loop. *)
Definition endpoint_makers (fullDoc : json) (now : string) (ep : Endpoint)
  : outcome (list (nat -> TestCase)) :=
  match parameters ep with
  | JArr params =>
      testData <- positive_test_data fullDoc now ep params ;;
      mandatoryParams <- filter_required params ;;
      missing <- match mandatoryParams with
                 | [] => Ret []
                 | first :: _ =>
                     name <- toStr (prop first "name") ;;
                     Ret [missing_mandatory_case ep name]
                 end ;;
      Ret (makers_of ep testData missing)
  | _ => Raise TypeError
  end.

(** An operation with three parameters, the first of them optional. *)
Definition pet_put : Endpoint :=
  {| path := "/pets/{id}"; method := "PUT"; summary := JStr "Update a pet";
     parameters := JArr [JObj [("name", JStr "verbose"); ("required", JBool false)];
                         JObj [("name", JStr "id"); ("required", JBool true)];
                         JObj [("name", JStr "token"); ("required", JBool true)]];
     responses := JObj []; requestBody := JUndef;
     operationId := JUndef; tags := JUndef |}.

(** A maker uses the counter for the identifier only. *)
Definition id_only (make : nat -> TestCase) : Prop :=
  forall n, Test_Case_ID (make n) = test_id n /\ without_id (make n) = without_id (make 0).

(** * Properties *)

Example split_on_pointer :
  split_on "/" (strip_pointer_prefix "#/components/schemas/Pet")
  = ["components"; "schemas"; "Pet"].
Proof. reflexivity. Qed.

Example index_of_key_canonical :
  index_of_key "12" = Some 12 /\ index_of_key "012" = None /\ index_of_key "" = None
  /\ index_of_key "allOf" = None.
Proof. repeat split; reflexivity. Qed.


(** ** Sets of pointers *)

Lemma set_delete_absent (r : string) (seen : refset) :
  set_has r seen = false -> set_delete r seen = seen.
Proof.
  unfold set_has, set_delete.
  induction seen as [|x seen IH]; simpl; intros H; [reflexivity|].
  apply orb_false_iff in H. destruct H as [Hx Hs].
  rewrite String.eqb_sym in Hx. rewrite Hx. simpl. f_equal. auto.
Qed.

Lemma set_delete_add (r : string) (seen : refset) :
  set_has r seen = false -> set_delete r (set_add r seen) = seen.
Proof.
  intros H. unfold set_add. rewrite H.
  unfold set_delete. simpl. rewrite String.eqb_refl. simpl.
  apply set_delete_absent. exact H.
Qed.

Lemma set_has_add_same (r : string) (seen : refset) :
  set_has r (set_add r seen) = true.
Proof.
  unfold set_add. destruct (set_has r seen) eqn:H; [exact H|].
  unfold set_has. simpl. rewrite String.eqb_refl. reflexivity.
Qed.

Lemma set_has_add_other (r x : string) (seen : refset) :
  set_has x seen = true -> set_has x (set_add r seen) = true.
Proof.
  intros H. unfold set_add. destruct (set_has r seen); [exact H|].
  unfold set_has in *. simpl. rewrite H. apply orb_true_r.
Qed.

(** Putting a pointer of the universe in flight leaves strictly fewer
    pointers that can still be followed. *)
Lemma unseen_add_lt (universe : list string) (r : string) (seen : refset) :
  In r universe -> set_has r seen = false ->
  unseen universe (set_add r seen) < unseen universe seen.
Proof.
  unfold unseen. intros Hin Hnot.
  induction universe as [|x universe IH]; [contradiction|].
  assert (Hle : forall l,
             length (filter (fun r0 => negb (set_has r0 (set_add r seen))) l)
             <= length (filter (fun r0 => negb (set_has r0 seen)) l)).
  { induction l as [|y l IHl]; simpl; [lia|].
    destruct (set_has y seen) eqn:Hy.
    - rewrite (set_has_add_other r y seen Hy). simpl. exact IHl.
    - simpl. destruct (set_has y (set_add r seen)); simpl; lia. }
  simpl. destruct Hin as [->|Hin].
  - rewrite set_has_add_same, Hnot. simpl. specialize (Hle universe). lia.
  - specialize (IH Hin).
    destruct (set_has x seen) eqn:Hx.
    + rewrite (set_has_add_other r x seen Hx). simpl. exact IH.
    + simpl. destruct (set_has x (set_add r seen)); simpl; lia.
Qed.

(** ** Size and pointers of what a property read returns *)

Lemma size_pos (v : json) : 1 <= size v.
Proof. destruct v; simpl; lia. Qed.

Lemma lookup_In (k : string) (m : obj) (x : json) :
  lookup k m = Some x -> exists k', In (k', x) m.
Proof.
  induction m as [|[k' v] m IH]; simpl; [discriminate|].
  destruct (k' =? k).
  - intros [= ->]. exists k'. now left.
  - intros H. destruct (IH H) as [k'' Hk]. exists k''. now right.
Qed.

Lemma size_element (x : json) (l : list json) :
  In x l -> size x < size (JArr l).
Proof.
  simpl. induction l as [|y l IH]; simpl; [contradiction|].
  intros [->|H]; [lia|]. specialize (IH H). lia.
Qed.

Lemma size_field (k : string) (x : json) (m : obj) :
  In (k, x) m -> size x < size (JObj m).
Proof.
  simpl. induction m as [|[k' y] m IH]; simpl; [contradiction|].
  intros [[= -> ->]|H]; [lia|]. specialize (IH H). lia.
Qed.

Lemma refs_element (x : json) (l : list json) :
  In x l -> incl (refs x) (refs (JArr l)).
Proof.
  intros H r Hr. simpl. apply in_flat_map. exists x. split; assumption.
Qed.

Lemma refs_field (k : string) (x : json) (m : obj) :
  In (k, x) m -> incl (refs x) (refs (JObj m)).
Proof.
  intros H r Hr. simpl. apply in_or_app. right.
  apply in_flat_map. exists (k, x). split; assumption.
Qed.

Lemma nth_In_or_default (i : nat) (l : list json) :
  In (nth i l JUndef) l \/ nth i l JUndef = JUndef.
Proof.
  destruct (Nat.lt_ge_cases i (length l)) as [H|H].
  - left. apply nth_In. exact H.
  - right. apply nth_overflow. exact H.
Qed.

Lemma prop_size_le (v : json) (k : string) : size (prop v k) <= size v.
Proof.
  destruct v as [| | | | s | l | m]; simpl; try lia.
  - destruct (k =? "length"); [simpl; lia|].
    destruct (index_of_key k); [|simpl; lia].
    destruct (String.get n s); simpl; lia.
  - destruct (k =? "length"); [simpl; lia|].
    destruct (index_of_key k) as [i|]; [|simpl; lia].
    destruct (nth_In_or_default i l) as [H|H].
    + apply size_element in H. simpl in H. lia.
    + rewrite H. simpl. lia.
  - destruct (lookup k m) as [x|] eqn:H; [|simpl; lia].
    destruct (lookup_In _ _ _ H) as [k' Hk]. apply size_field in Hk. simpl in Hk. lia.
Qed.

(** A truthy value read under a key that is neither an index nor
    [length] is a field of an object, hence strictly smaller. *)
Lemma prop_truthy_size_lt (v : json) (k : string) :
  (k =? "length") = false -> index_of_key k = None ->
  truthy (prop v k) = true -> size (prop v k) < size v.
Proof.
  intros Hlen Hidx.
  destruct v as [| | | | s | l | m]; simpl; try discriminate;
    rewrite ?Hlen, ?Hidx; simpl; try discriminate.
  destruct (lookup k m) as [x|] eqn:H; [|discriminate].
  intros _. destruct (lookup_In _ _ _ H) as [k' Hk].
  apply size_field in Hk. simpl in Hk. lia.
Qed.

Lemma prop_refs_incl (v : json) (k : string) : incl (refs (prop v k)) (refs v).
Proof.
  destruct v as [| | | | s | l | m]; simpl; try (intros r []).
  - destruct (k =? "length"); [intros r []|].
    destruct (index_of_key k); [|intros r []].
    destruct (String.get n s); intros r [].
  - destruct (k =? "length"); [intros r []|].
    destruct (index_of_key k) as [i|]; [|intros r []].
    destruct (nth_In_or_default i l) as [H|H].
    + apply (refs_element _ _ H).
    + rewrite H. intros r [].
  - destruct (lookup k m) as [x|] eqn:H; [|intros r []].
    destruct (lookup_In _ _ _ H) as [k' Hk]. apply (refs_field _ _ _ Hk).
Qed.

(** The pointer of a reference node is among the pointers of the node. *)
Lemma ref_in_refs (s : json) (r : string) :
  prop s "$ref" = JStr r -> In r (refs s).
Proof.
  destruct s as [| | | | t | l | m]; simpl; try discriminate.
  intros H. apply in_or_app. left. unfold ref_of_fields.
  destruct (lookup "$ref" m) as [x|]; [|discriminate].
  subst x. now left.
Qed.

(** ** What [resolveRef] returns is part of the document *)

Lemma walk_within (parts : list string) (current v : json) :
  walk parts current = Ret v ->
  size v <= size current /\ incl (refs v) (refs current).
Proof.
  revert current. induction parts as [|part rest IH]; intros current; simpl.
  - intros [= ->]. split; [lia | apply incl_refl].
  - unfold get. destruct (nullish current); [discriminate|]. simpl.
    destruct (is_undef (prop current part)).
    + intros [= <-]. split; [apply size_pos | intros r []].
    + intros H. destruct (IH _ H) as [Hs Hr]. split.
      * pose proof (prop_size_le current part). lia.
      * eapply incl_tran; [exact Hr | apply prop_refs_incl].
Qed.

Lemma resolveRef_within (r : string) (fullDoc v : json) :
  resolveRef r fullDoc = Ret v ->
  size v <= size fullDoc /\ incl (refs v) (refs fullDoc).
Proof.
  unfold resolveRef.
  destruct (negb (truthy (JStr r)) || negb (truthy fullDoc)).
  - intros [= <-]. split; [apply size_pos | intros x []].
  - apply walk_within.
Qed.

Lemma walk_fuel_free (parts : list string) (current : json) :
  walk parts current <> NoFuel.
Proof.
  revert current. induction parts as [|part rest IH]; intros current; simpl.
  - discriminate.
  - unfold get. destruct (nullish current); [discriminate|]. simpl.
    destruct (is_undef (prop current part)); [discriminate | apply IH].
Qed.

Lemma resolveRef_fuel_free (r : string) (fullDoc : json) :
  resolveRef r fullDoc <> NoFuel.
Proof.
  unfold resolveRef.
  destruct (negb (truthy (JStr r)) || negb (truthy fullDoc));
    [discriminate | apply walk_fuel_free].
Qed.

Lemma object_keys_fuel_free (v : json) : object_keys v <> NoFuel.
Proof. destruct v; discriminate. Qed.

(** ** [generate]: the in-flight set, fuel, and the fuel-free equation *)

Section GenerateFacts.

Variable fullDoc : json.
Variable now : string.

#[local] Abbreviation body := (generate_body fullDoc now).
#[local] Abbreviation gen := (generate fullDoc now).

Lemma allOf_loop_restores self :
  restores self ->
  forall subs combined seen v seen',
    allOf_loop self subs combined seen = (Ret v, seen') -> seen' = seen.
Proof.
  intros Hself. induction subs as [|sub rest IH]; simpl; intros combined seen v seen'.
  - now intros [= _ ->].
  - destruct (self sub seen) as [[g|e|] seen1] eqn:E; try discriminate.
    apply Hself in E. subst seen1. apply IH.
Qed.

Lemma properties_loop_restores self :
  restores self ->
  forall props keys o seen v seen',
    properties_loop self props keys o seen = (Ret v, seen') -> seen' = seen.
Proof.
  intros Hself props. induction keys as [|key rest IH]; simpl; intros o seen v seen'.
  - now intros [= _ ->].
  - destruct (self (prop props key) seen) as [[g|e|] seen1] eqn:E; try discriminate.
    apply Hself in E. subst seen1. apply IH.
Qed.

Ltac split_hyp H :=
  match type of H with
  | context [match ?x with _ => _ end] =>
      lazymatch x with
      | context [match _ with _ => _ end] => fail
      | _ => destruct x eqn:?
      end
  end.

Lemma generate_body_restores self : restores self -> restores (body self).
Proof.
  intros Hself s seen v seen' H. unfold generate_body in H.
  repeat (split_hyp H; try discriminate);
    try (injection H as _ <-; try reflexivity).
  all: try match goal with
         | Hf : restores ?f, E : ?f _ _ = (Ret _, _) |- _ => apply Hf in E; subst
         end.
  all: try (apply set_delete_add; assumption).
  all: try reflexivity.
  all: try (eapply allOf_loop_restores; eassumption).
  all: try (eapply properties_loop_restores; eassumption).
Qed.

Lemma generate_restores fuel : restores (gen fuel).
Proof.
  induction fuel as [|fuel IH].
  - intros s seen v seen' H. discriminate H.
  - simpl. apply generate_body_restores. exact IH.
Qed.

(** *** More fuel does not change a complete run *)

Lemma allOf_loop_extends self' self :
  extends self' self ->
  forall subs combined seen,
    complete (allOf_loop self subs combined seen) ->
    allOf_loop self' subs combined seen = allOf_loop self subs combined seen.
Proof.
  intros Hext. induction subs as [|sub rest IH]; simpl; intros combined seen Hc.
  - reflexivity.
  - destruct (self sub seen) as [[g|e|] seen1] eqn:E.
    + rewrite (Hext sub seen), E by (unfold complete; rewrite E; discriminate).
      apply IH. exact Hc.
    + rewrite (Hext sub seen), E by (unfold complete; rewrite E; discriminate).
      reflexivity.
    + exfalso. apply Hc. reflexivity.
Qed.

Lemma properties_loop_extends self' self :
  extends self' self ->
  forall props keys o seen,
    complete (properties_loop self props keys o seen) ->
    properties_loop self' props keys o seen = properties_loop self props keys o seen.
Proof.
  intros Hext props. induction keys as [|key rest IH]; simpl; intros o seen Hc.
  - reflexivity.
  - destruct (self (prop props key) seen) as [[g|e|] seen1] eqn:E.
    + rewrite (Hext _ seen), E by (unfold complete; rewrite E; discriminate).
      apply IH. exact Hc.
    + rewrite (Hext _ seen), E by (unfold complete; rewrite E; discriminate).
      reflexivity.
    + exfalso. apply Hc. reflexivity.
Qed.

(** Case analysis on the tests of the body that do not involve a
    recursive call. *)
Ltac split_tests self self' :=
  repeat match goal with
         | |- context [match ?x with _ => _ end] =>
             lazymatch x with
             | context [match _ with _ => _ end] => fail
             | context [self] => fail
             | context [self'] => fail
             | _ => destruct x eqn:?
             end
         end.

(** A recursive call: the extension agrees with a complete run. *)
Ltac split_call Hext :=
  match type of Hext with
  | extends ?f' ?f =>
      match goal with
      | |- context [f ?x ?sn] =>
          let E := fresh "E" in
          destruct (f x sn) as [[?|?|] ?] eqn:E;
          [ rewrite (Hext x sn), E by (unfold complete; rewrite E; discriminate);
            reflexivity
          | rewrite (Hext x sn), E by (unfold complete; rewrite E; discriminate);
            reflexivity
          | let Hc := fresh "Hc" in intros Hc; exfalso; apply Hc; reflexivity ]
      end
  end.

Lemma generate_body_extends self' self :
  extends self' self -> extends (body self') (body self).
Proof.
  intros Hext s seen. unfold generate_body.
  split_tests self self'; try reflexivity.
  - split_call Hext.
  - apply allOf_loop_extends; assumption.
  - apply Hext; assumption.
  - apply Hext; assumption.
  - apply properties_loop_extends; assumption.
  - split_call Hext.
Qed.

Lemma generate_step_extends fuel : extends (gen (S fuel)) (gen fuel).
Proof.
  induction fuel as [|fuel IH].
  - intros s seen Hc. exfalso. apply Hc. reflexivity.
  - change (extends (body (gen (S fuel))) (body (gen fuel))).
    apply generate_body_extends. exact IH.
Qed.

Lemma generate_more_fuel fuel fuel' :
  fuel <= fuel' -> extends (gen fuel') (gen fuel).
Proof.
  induction 1 as [|fuel' Hle IH]; intros s seen Hc.
  - reflexivity.
  - rewrite <- (IH s seen Hc). apply generate_step_extends.
    unfold complete. rewrite (IH s seen Hc). exact Hc.
Qed.

Lemma generate_agree fuel1 fuel2 s seen :
  complete (gen fuel1 s seen) -> complete (gen fuel2 s seen) ->
  gen fuel1 s seen = gen fuel2 s seen.
Proof.
  intros H1 H2. destruct (Nat.le_ge_cases fuel1 fuel2) as [H|H].
  - symmetry. apply (generate_more_fuel _ _ H). exact H1.
  - apply (generate_more_fuel _ _ H). exact H2.
Qed.

(** *** Enough fuel gives a complete run *)

Lemma allOf_loop_complete self subs seen :
  restores self ->
  (forall sub, In sub subs -> complete (self sub seen)) ->
  forall combined, complete (allOf_loop self subs combined seen).
Proof.
  intros Hres. induction subs as [|sub rest IH]; simpl; intros Hsubs combined.
  - discriminate.
  - pose proof (Hsubs sub (or_introl eq_refl)) as Hsub.
    destruct (self sub seen) as [[g|e|] seen1] eqn:E.
    + apply Hres in E. subst seen1. apply IH. intros x Hx. apply Hsubs. now right.
    + discriminate.
    + exfalso. apply Hsub. reflexivity.
Qed.

Lemma properties_loop_complete self props keys seen :
  restores self ->
  (forall key, complete (self (prop props key) seen)) ->
  forall o, complete (properties_loop self props keys o seen).
Proof.
  intros Hres Hkeys. induction keys as [|key rest IH]; simpl; intros o.
  - discriminate.
  - pose proof (Hkeys key) as Hkey.
    destruct (self (prop props key) seen) as [[g|e|] seen1] eqn:E.
    + apply Hres in E. subst seen1. apply IH.
    + discriminate.
    + exfalso. apply Hkey. reflexivity.
Qed.

Lemma fuel_for_child universe seen s child fuel :
  size child < size s ->
  fuel_for fullDoc universe seen s <= S fuel ->
  fuel_for fullDoc universe seen child <= fuel.
Proof. unfold fuel_for. lia. Qed.

Lemma fuel_for_resolved universe seen s r resolved fuel :
  In r universe -> set_has r seen = false ->
  size resolved <= size fullDoc ->
  fuel_for fullDoc universe seen s <= S fuel ->
  fuel_for fullDoc universe (set_add r seen) resolved <= fuel.
Proof.
  unfold fuel_for. intros Hin Hnot Hsize Hfuel.
  pose proof (unseen_add_lt universe r seen Hin Hnot) as Hlt.
  nia.
Qed.

Theorem generate_complete (universe : list string) :
  incl (refs fullDoc) universe ->
  forall fuel s seen,
    incl (refs s) universe ->
    fuel_for fullDoc universe seen s <= fuel ->
    complete (gen fuel s seen).
Proof.
  intros Hdoc. induction fuel as [|fuel IH]; intros s seen Hs Hfuel.
  - unfold fuel_for in Hfuel. lia.
  - change (complete (body (gen fuel) s seen)). unfold generate_body.
    split_tests (gen fuel) (gen fuel); try discriminate;
      try (exfalso; eapply resolveRef_fuel_free; eassumption);
      try (exfalso; eapply object_keys_fuel_free; eassumption).
    + (* a pointer not in flight, resolved to a truthy node *)
      match goal with
      | Hres : resolveRef _ _ = Ret ?resolved, Href : prop s "$ref" = JStr ?r |- _ =>
          destruct (resolveRef_within _ _ _ Hres) as [Hsize Hrefs];
          assert (Hcall : complete (gen fuel resolved (set_add r seen)))
            by (apply IH;
                [ eapply incl_tran; [exact Hrefs | exact Hdoc]
                | eapply fuel_for_resolved; eauto using ref_in_refs ]);
          destruct (gen fuel resolved (set_add r seen)) as [[?|?|] ?];
          [ discriminate | discriminate | exact Hcall ]
      end.
    + (* allOf *)
      match goal with
      | Hall : prop s "allOf" = JArr ?subs |- _ =>
          apply allOf_loop_complete; [apply generate_restores|];
          intros sub Hsub; apply IH;
          [ eapply incl_tran; [apply (refs_element _ _ Hsub)|];
            rewrite <- Hall; eapply incl_tran; [apply prop_refs_incl | exact Hs]
          | eapply fuel_for_child; [|exact Hfuel];
            pose proof (size_element _ _ Hsub) as Hlt; rewrite <- Hall in Hlt;
            pose proof (prop_size_le s "allOf"); lia ]
      end.
    + (* oneOf *)
      apply IH.
      * eapply incl_tran; [apply prop_refs_incl|].
        eapply incl_tran; [apply prop_refs_incl | exact Hs].
      * eapply fuel_for_child; [|exact Hfuel].
        pose proof (prop_size_le (prop s "oneOf") "0").
        assert (size (prop s "oneOf") < size s)
          by (apply prop_truthy_size_lt; [reflexivity | reflexivity | assumption]).
        lia.
    + (* anyOf *)
      apply IH.
      * eapply incl_tran; [apply prop_refs_incl|].
        eapply incl_tran; [apply prop_refs_incl | exact Hs].
      * eapply fuel_for_child; [|exact Hfuel].
        pose proof (prop_size_le (prop s "anyOf") "0").
        assert (size (prop s "anyOf") < size s).
        { apply prop_truthy_size_lt; [reflexivity | reflexivity |].
          match goal with
          | H : _ || _ = true |- _ => apply orb_true_iff in H; destruct H as [H|H];
                                      [congruence | exact H]
          end. }
        lia.
    + (* properties *)
      apply properties_loop_complete; [apply generate_restores|].
      intros key. apply IH.
      * eapply incl_tran; [apply prop_refs_incl|].
        eapply incl_tran; [apply prop_refs_incl | exact Hs].
      * eapply fuel_for_child; [|exact Hfuel].
        pose proof (prop_size_le (prop s "properties") key).
        assert (size (prop s "properties") < size s).
        { apply prop_truthy_size_lt; [reflexivity | reflexivity |].
          match goal with
          | H : _ && _ = true |- _ => apply andb_true_iff in H; apply H
          end. }
        lia.
    + (* items *)
      assert (Hcall : complete (gen fuel (prop s "items") seen)).
      { apply IH.
        - eapply incl_tran; [apply prop_refs_incl | exact Hs].
        - eapply fuel_for_child; [|exact Hfuel].
          apply prop_truthy_size_lt; [reflexivity | reflexivity |].
          match goal with
          | H : _ && _ = true |- _ => apply andb_true_iff in H; apply H
          end. }
      destruct (gen fuel (prop s "items") seen) as [[?|?|] ?];
        [ discriminate | discriminate | exact Hcall ].
Qed.

(** *** [sample_of]: the run to completion *)

Lemma sample_of_complete s seen : complete (sample_of fullDoc now s seen).
Proof.
  unfold sample_of. apply (generate_complete (universe_of fullDoc s)).
  - unfold universe_of. apply incl_appl, incl_refl.
  - unfold universe_of. apply incl_appr, incl_refl.
  - apply Nat.le_refl.
Qed.

Lemma sample_of_eq fuel s seen :
  complete (gen fuel s seen) -> gen fuel s seen = sample_of fullDoc now s seen.
Proof.
  intros Hc. apply generate_agree; [exact Hc | apply sample_of_complete].
Qed.

Lemma sample_of_restores : restores (sample_of fullDoc now).
Proof. intros s seen v seen'. unfold sample_of. apply generate_restores. Qed.

(** [sample_of] satisfies the equation of [generate] without fuel. *)
Theorem sample_of_unfold s seen :
  sample_of fullDoc now s seen = body (sample_of fullDoc now) s seen.
Proof.
  pose proof (sample_of_complete s seen) as Hc.
  unfold sample_of at 1. unfold sample_of in Hc at 1. unfold fuel_for in *.
  change (body (gen (unseen (universe_of fullDoc s) seen * S (size fullDoc) + size s)) s seen
          = body (sample_of fullDoc now) s seen).
  symmetry. apply generate_body_extends; [|exact Hc].
  intros s' seen' Hc'. symmetry. apply sample_of_eq. exact Hc'.
Qed.

End GenerateFacts.

(** ** Reference cycles and the top-level [try]/[catch] *)

Lemma prop_truthy_parent (s : json) (k : string) :
  truthy (prop s k) = true -> truthy s = true.
Proof.
  destruct s as [| | b | n | t | l | m]; simpl; try discriminate; try reflexivity.
  destruct t as [|c t]; [|reflexivity].
  destruct (k =? "length"); [discriminate|].
  destruct (index_of_key k) as [i|]; [destruct i|]; discriminate.
Qed.

Lemma complete_cases (run : outcome json * refset) :
  complete run -> (exists v, fst run = Ret v) \/ (exists e, fst run = Raise e).
Proof.
  destruct run as [[v|e|] seen]; simpl; intros H.
  - left. now exists v.
  - right. now exists e.
  - exfalso. apply H. reflexivity.
Qed.

(** [generateSampleJson] hands a value to its caller, whatever the schema
    and the document. *)
Lemma generateSampleJson_returns (fullDoc : json) (now : string) (schema : json) :
  returns (generateSampleJson fullDoc now schema).
Proof.
  unfold generateSampleJson, returns.
  destruct (negb (truthy schema)); [now eexists|].
  destruct (complete_cases _ (sample_of_complete fullDoc now schema [])) as [[v Hv]|[e He]].
  - rewrite Hv. simpl. now eexists.
  - rewrite He. simpl. now eexists.
Qed.

Example cyclic_doc_sample :
  fst (sample_of cyclic_doc "" (JObj [("$ref", JStr "#/components/schemas/A")]) [])
  = Ret (JObj [("name", JStr "sample_string"); ("self", JObj [])]).
Proof. vm_compute. reflexivity. Qed.

Example mutual_doc_sample :
  fst (sample_of mutual_doc "" (JObj [("$ref", JStr "#/definitions/A")]) [])
  = Ret (JObj [("b", JObj [("a", JObj [])])]).
Proof. vm_compute. reflexivity. Qed.

(** C3.  Cycle safety.  For every document and every schema, cyclic or
    not, [generateSampleJson] returns a value and the inner [generate] runs
    to completion.  A node whose pointer is already in flight yields the
    empty object without any recursive call, whatever the recursive call
    would do; a node whose pointer is not in flight and resolves to a
    truthy node is generated from that node with the pointer put in
    flight, which is how a chain that leads back to it ends in the
    placeholder. *)
Theorem cycle_safety (fullDoc : json) (now : string) :
  (forall schema, returns (generateSampleJson fullDoc now schema))
  /\ (forall s seen, complete (sample_of fullDoc now s seen))
  /\ (forall self s r seen,
         prop s "$ref" = JStr r -> truthy (JStr r) = true -> set_has r seen = true ->
         generate_body fullDoc now self s seen = (Ret (JObj []), seen))
  /\ (forall s r seen resolved,
         prop s "$ref" = JStr r -> truthy (JStr r) = true -> set_has r seen = false ->
         resolveRef r fullDoc = Ret resolved -> truthy resolved = true ->
         fst (sample_of fullDoc now s seen)
         = fst (sample_of fullDoc now resolved (set_add r seen))).
Proof.
  split; [apply generateSampleJson_returns|].
  split; [apply sample_of_complete|].
  split.
  - intros self s r seen Href Hr Hseen. unfold generate_body.
    assert (Hs : truthy s = true) by (apply (prop_truthy_parent s "$ref"); now rewrite Href).
    rewrite Hs, Href, Hr, Hseen. reflexivity.
  - intros s r seen resolved Href Hr Hseen Hres Htruthy.
    rewrite (sample_of_unfold fullDoc now s seen). unfold generate_body.
    assert (Hs : truthy s = true) by (apply (prop_truthy_parent s "$ref"); now rewrite Href).
    rewrite Hs, Href, Hr, Hseen, Hres, Htruthy. simpl.
    destruct (sample_of fullDoc now resolved (set_add r seen)) as [[v|e|] seen1];
      reflexivity.
Qed.

Lemma cycle_safety_witness :
  let r := "#/components/schemas/A" in
  let s := JObj [("$ref", JStr r)] in
  let self : generator := fun _ seen => (NoFuel, seen) in
  (prop s "$ref" = JStr r /\ truthy (JStr r) = true /\ set_has r [r] = true)
  /\ generate_body cyclic_doc "" self s [r] = (Ret (JObj []), [r]).
Proof.
  intros r s self. split.
  - repeat split; reflexivity.
  - apply (proj1 (proj2 (proj2 (cycle_safety cyclic_doc "")))) with (r := r);
      reflexivity.
Defined.

(** C5.  [generateSampleJson] returns a value to its caller for every
    schema and every document; when the traversal throws, the value is
    the fixed text of the [catch] branch. *)
Theorem generateSampleJson_never_throws (fullDoc : json) (now : string) (schema : json) :
  returns (generateSampleJson fullDoc now schema)
  /\ (forall e,
         truthy schema = true ->
         fst (sample_of fullDoc now schema []) = Raise e ->
         generateSampleJson fullDoc now schema = Ret (JStr "Check Swagger Schema")).
Proof.
  split; [apply generateSampleJson_returns|].
  intros e Hs He. unfold generateSampleJson. rewrite Hs, He. reflexivity.
Qed.

Lemma generateSampleJson_never_throws_witness :
  let schema := JObj [("$ref", JStr "#/components/schemas/Pet")] in
  (truthy schema = true
   /\ fst (sample_of empty_schemas_doc "" schema []) = Raise TypeError)
  /\ generateSampleJson empty_schemas_doc "" schema = Ret (JStr "Check Swagger Schema").
Proof.
  intros schema. split.
  - split; reflexivity.
  - apply (proj2 (generateSampleJson_never_throws empty_schemas_doc "" schema) TypeError);
      reflexivity.
Defined.

(** C10.  On a falsy schema [generateSampleJson] returns the empty string
    and not a rendered JSON value, so that the text a caller builds around
    it has nothing after its label; a truthy schema whose sample is [null]
    is rendered as the four letters null. *)
Theorem falsy_schema_gives_empty_string (fullDoc : json) (now : string) (schema : json) :
  (truthy schema = false ->
   generateSampleJson fullDoc now schema = Ret (JStr "")
   /\ (sample <- generateSampleJson fullDoc now schema ;;
       sample_text <- toStr sample ;;
       Ret ("Request Body:" ++ newline ++ sample_text))
      = Ret ("Request Body:" ++ newline))
  /\ (truthy schema = true ->
      fst (sample_of fullDoc now schema []) = Ret JNull ->
      generateSampleJson fullDoc now schema = Ret (JStr "null")).
Proof.
  split.
  - intros Hs. unfold generateSampleJson. rewrite Hs. simpl. split; reflexivity.
  - intros Hs Hnull. unfold generateSampleJson. rewrite Hs, Hnull. reflexivity.
Qed.

Lemma falsy_schema_gives_empty_string_witness :
  (truthy JNull = false /\ generateSampleJson (JObj []) "" JNull = Ret (JStr ""))
  /\ (let schema := JObj [("type", JStr "file")] in
      (truthy schema = true /\ fst (sample_of (JObj []) "" schema []) = Ret JNull)
      /\ generateSampleJson (JObj []) "" schema = Ret (JStr "null")).
Proof.
  split.
  - split; [reflexivity|].
    apply (proj1 (falsy_schema_gives_empty_string (JObj []) "" JNull)). reflexivity.
  - intros schema. split; [split; reflexivity|].
    apply (proj2 (falsy_schema_gives_empty_string (JObj []) "" schema)); reflexivity.
Defined.

(** ** Objects: reading back what [obj_set] wrote *)

Lemma lookup_app (k : string) (m1 m2 : obj) :
  lookup k (m1 ++ m2)%list
  = match lookup k m1 with
    | Some x => Some x
    | None => lookup k m2
    end.
Proof.
  induction m1 as [|[k' v] m1 IH]; simpl; [reflexivity|].
  destruct (k' =? k); [reflexivity | exact IH].
Qed.

Lemma lookup_obj_replace (k k' : string) (v : json) (m : obj) :
  has_key k' m = true ->
  lookup k (obj_replace k' v m) = if k' =? k then Some v else lookup k m.
Proof.
  unfold has_key. induction m as [|[k0 v0] m IH]; simpl; [discriminate|].
  destruct (k0 =? k') eqn:E0.
  - apply String.eqb_eq in E0. subst k0. intros _. simpl.
    destruct (k' =? k); reflexivity.
  - intros H. simpl. destruct (k0 =? k) eqn:E1.
    + apply String.eqb_eq in E1. subst k0. rewrite String.eqb_sym, E0. reflexivity.
    + apply IH. exact H.
Qed.

Lemma lookup_obj_insert_index (k k' : string) (i : nat) (v : json) (m : obj) :
  has_key k' m = false ->
  lookup k (obj_insert_index i k' v m) = if k' =? k then Some v else lookup k m.
Proof.
  unfold has_key. induction m as [|[k0 v0] m IH]; simpl.
  - intros _. destruct (k' =? k); reflexivity.
  - destruct (k0 =? k') eqn:E0; [discriminate|]. intros H.
    destruct (index_of_key k0) as [j|]; [destruct (i <? j)%nat|]; simpl;
      try (destruct (k' =? k); reflexivity).
    destruct (k0 =? k) eqn:E1.
    + apply String.eqb_eq in E1. subst k0. rewrite String.eqb_sym, E0. reflexivity.
    + apply IH. exact H.
Qed.

Lemma lookup_obj_set (k k' : string) (v : json) (m : obj) :
  lookup k (obj_set m k' v) = if k' =? k then Some v else lookup k m.
Proof.
  unfold obj_set. destruct (has_key k' m) eqn:H.
  - apply lookup_obj_replace. exact H.
  - destruct (index_of_key k') as [i|].
    + apply lookup_obj_insert_index. exact H.
    + rewrite lookup_app. simpl.
      destruct (lookup k m) as [x|] eqn:Hk.
      * destruct (k' =? k) eqn:E; [|reflexivity].
        apply String.eqb_eq in E. subst k'. unfold has_key in H. rewrite Hk in H.
        discriminate.
      * destruct (k' =? k); reflexivity.
Qed.

(** After a merge, a key holds the value of its last entry, or what it
    held before when no entry names it. *)
Lemma lookup_merge_fields (k : string) (entries into : obj) :
  lookup k (merge_fields entries into)
  = match lookup k (rev entries) with
    | Some x => Some x
    | None => lookup k into
    end.
Proof.
  unfold merge_fields. revert into.
  induction entries as [|[k' v] entries IH]; intros into; simpl; [reflexivity|].
  rewrite IH, lookup_app, lookup_obj_set. simpl.
  destruct (lookup k (rev entries)); [reflexivity|].
  destruct (k' =? k); reflexivity.
Qed.

Lemma lookup_merged_from (k : string) (samples : list json) (into : obj) :
  lookup k (fold_left (fun acc v => merge_fields (member_fields v) acc) samples into)
  = match lookup k (rev (flat_map member_fields samples)) with
    | Some x => Some x
    | None => lookup k into
    end.
Proof.
  revert into. induction samples as [|v samples IH]; intros into; simpl; [reflexivity|].
  rewrite IH, rev_app_distr, lookup_app, lookup_merge_fields.
  destruct (lookup k (rev (flat_map member_fields samples))); reflexivity.
Qed.

(** ** Composition keywords *)

(** What the loop does with a member whose sample is not an array is
    what the specification's merge does with it. *)
Lemma merge_step_spec (combined : obj) (generated : json) :
  is_array generated = false ->
  (if typeof_object generated then spread combined generated else combined)
  = merge_fields (member_fields generated) combined.
Proof. destruct generated; simpl; intros H; try reflexivity; discriminate. Qed.

Lemma allOf_loop_merges (fullDoc : json) (now : string) (seen : refset)
      (subs samples : list json) :
  Forall2 (fun sub v => fst (sample_of fullDoc now sub seen) = Ret v) subs samples ->
  Forall (fun v => is_array v = false) samples ->
  forall combined,
    allOf_loop (sample_of fullDoc now) subs combined seen
    = (Ret (JObj (fold_left (fun acc v => merge_fields (member_fields v) acc)
                            samples combined)), seen).
Proof.
  induction 1 as [|sub v subs samples Hsub Hrest IH]; intros Hobj combined; simpl.
  - reflexivity.
  - inversion Hobj as [|? ? Hv Hvs]; subst.
    destruct (sample_of fullDoc now sub seen) as [o seen1] eqn:E.
    simpl in Hsub. subst o.
    pose proof (sample_of_restores fullDoc now _ _ _ _ E). subst seen1.
    rewrite (merge_step_spec _ _ Hv). apply IH. exact Hvs.
Qed.

(** C4 (amended).  For a schema without a [$ref] whose [allOf] is a list
    of members, each of which has a sample that is not an array: the
    sample is the object obtained by merging the members' samples from
    left to right, a sample that is not an object contributing nothing,
    and every key of it holds the value of the last member field with that
    key. *)
Theorem allOf_merge (fullDoc : json) (now : string) (s : json)
        (subs samples : list json) (seen : refset) :
  truthy (prop s "$ref") = false ->
  prop s "allOf" = JArr subs ->
  Forall2 (fun sub v => fst (sample_of fullDoc now sub seen) = Ret v) subs samples ->
  Forall (fun v => is_array v = false) samples ->
  sample_of fullDoc now s seen = (Ret (JObj (merged_sample samples)), seen)
  /\ forall k, lookup k (merged_sample samples)
               = lookup k (rev (flat_map member_fields samples)).
Proof.
  intros Href Hall Hsubs Hobj. split.
  - rewrite sample_of_unfold. unfold generate_body.
    assert (Hs : truthy s = true) by (apply (prop_truthy_parent s "allOf"); now rewrite Hall).
    rewrite Hs, Href, Hall. simpl.
    apply allOf_loop_merges; assumption.
  - intros k. unfold merged_sample. rewrite lookup_merged_from.
    destruct (lookup k (rev (flat_map member_fields samples))); reflexivity.
Qed.

(** The example of the specification: members with samples [{a:1,b:1}]
    and [{b:2,c:2}] merge to [{a:1,b:2,c:2}]. *)
Lemma allOf_merge_witness :
  let m1 := JObj [("a", JNum 1); ("b", JNum 1)] in
  let m2 := JObj [("b", JNum 2); ("c", JNum 2)] in
  let subs := [JObj [("example", m1)]; JObj [("example", m2)]] in
  let s := JObj [("allOf", JArr subs)] in
  (truthy (prop s "$ref") = false /\ prop s "allOf" = JArr subs
   /\ Forall2 (fun sub v => fst (sample_of (JObj []) "" sub []) = Ret v) subs [m1; m2]
   /\ Forall (fun v => is_array v = false) [m1; m2])
  /\ sample_of (JObj []) "" s []
     = (Ret (JObj [("a", JNum 1); ("b", JNum 2); ("c", JNum 2)]), []).
Proof.
  intros m1 m2 subs s.
  assert (H2 : Forall2 (fun sub v => fst (sample_of (JObj []) "" sub []) = Ret v)
                       subs [m1; m2])
    by (repeat constructor).
  assert (Hobj : Forall (fun v => is_array v = false) [m1; m2])
    by (repeat constructor).
  split; [repeat split; assumption|].
  exact (proj1 (allOf_merge (JObj []) "" s subs [m1; m2] [] eq_refl eq_refl H2 Hobj)).
Defined.

(** C4 as stated fails on the code.  A member whose sample is an array is
    not dropped: its elements enter the merge under their indices.  And a
    schema that carries [$ref] beside [allOf] is generated from the
    pointer, its [allOf] being ignored. *)
Lemma allOf_claim_counterexample :
  (let member := JObj [("type", JStr "array"); ("items", JObj [("type", JStr "integer")])] in
   let s := JObj [("allOf", JArr [member])] in
   fst (sample_of (JObj []) "" member []) = Ret (JArr [JNum 0])
   /\ fst (sample_of (JObj []) "" s []) = Ret (JObj [("0", JNum 0)])
   /\ fst (sample_of (JObj []) "" s []) <> Ret (JObj (merged_sample [JArr [JNum 0]])))
  /\ (let member := JObj [("example", JObj [("a", JNum 1)])] in
      let s := JObj [("$ref", JStr "#/missing"); ("allOf", JArr [member])] in
      fst (sample_of (JObj []) "" member []) = Ret (JObj [("a", JNum 1)])
      /\ fst (sample_of (JObj []) "" s []) = Ret (JObj [])
      /\ fst (sample_of (JObj []) "" s []) <> Ret (JObj (merged_sample [JObj [("a", JNum 1)]]))).
Proof.
  split; intros member s; (split; [reflexivity|]); (split; [reflexivity|]);
    vm_compute; discriminate.
Qed.

(** C7 (amended).  For a schema without a [$ref] and without an [allOf],
    let the listing be [oneOf] when the schema has one and [anyOf]
    otherwise; when that listing is a list with at least one member, the
    sample of the schema is exactly the sample of its first member,
    however many members follow. *)
Theorem oneOf_anyOf_first_member (fullDoc : json) (now : string) (s first : json)
        (others : list json) (seen : refset) :
  truthy (prop s "$ref") = false ->
  truthy (prop s "allOf") = false ->
  (if truthy (prop s "oneOf") then prop s "oneOf" else prop s "anyOf")
  = JArr (first :: others) ->
  sample_of fullDoc now s seen = sample_of fullDoc now first seen.
Proof.
  intros Href Hall Hlisting.
  rewrite (sample_of_unfold fullDoc now s seen). unfold generate_body.
  assert (Hany : truthy (prop s "oneOf") || truthy (prop s "anyOf") = true).
  { destruct (truthy (prop s "oneOf")); [reflexivity|]. simpl.
    rewrite Hlisting. reflexivity. }
  assert (Hs : truthy s = true).
  { apply orb_true_iff in Hany. destruct Hany as [H|H];
      eapply prop_truthy_parent; exact H. }
  rewrite Hs, Href, Hall, Hany, Hlisting. reflexivity.
Qed.

Lemma oneOf_anyOf_first_member_witness :
  let first := JObj [("type", JStr "integer")] in
  let others := [JObj [("type", JStr "string")]; JObj [("type", JStr "boolean")]] in
  let s := JObj [("anyOf", JArr (first :: others))] in
  (truthy (prop s "$ref") = false /\ truthy (prop s "allOf") = false
   /\ (if truthy (prop s "oneOf") then prop s "oneOf" else prop s "anyOf")
      = JArr (first :: others))
  /\ sample_of (JObj []) "" s [] = sample_of (JObj []) "" first []
  /\ fst (sample_of (JObj []) "" s []) = Ret (JNum 0).
Proof.
  intros first others s. split; [repeat split; reflexivity|].
  split; [|reflexivity].
  exact (oneOf_anyOf_first_member (JObj []) "" s first others [] eq_refl eq_refl eq_refl).
Defined.

(** C7 as stated fails on the code.  A schema that carries [allOf], or
    [$ref], beside its [oneOf] is not generated from the first [oneOf]
    member; and an [anyOf] listing is not looked at when the schema has a
    [oneOf], even an empty one. *)
Lemma oneOf_claim_counterexample :
  let first := JObj [("type", JStr "string")] in
  let beside_allOf := JObj [("allOf", JArr []); ("oneOf", JArr [first])] in
  let beside_ref := JObj [("$ref", JStr "#/missing"); ("oneOf", JArr [first])] in
  let empty_oneOf := JObj [("oneOf", JArr []); ("anyOf", JArr [first])] in
  fst (sample_of (JObj []) "" first []) = Ret (JStr "sample_string")
  /\ (fst (sample_of (JObj []) "" beside_allOf []) = Ret (JObj [])
      /\ sample_of (JObj []) "" beside_allOf [] <> sample_of (JObj []) "" first [])
  /\ (fst (sample_of (JObj []) "" beside_ref []) = Ret (JObj [])
      /\ sample_of (JObj []) "" beside_ref [] <> sample_of (JObj []) "" first [])
  /\ (fst (sample_of (JObj []) "" empty_oneOf []) = Ret JNull
      /\ sample_of (JObj []) "" empty_oneOf [] <> sample_of (JObj []) "" first []).
Proof.
  intros first beside_allOf beside_ref empty_oneOf.
  split; [reflexivity|].
  repeat split; try reflexivity; vm_compute; discriminate.
Qed.

(** ** [resolveRef] on a node that is [null] *)

Lemma prop_null_free (v : json) (k : string) :
  null_free v = true -> prop v k = JUndef \/ null_free (prop v k) = true.
Proof.
  destruct v as [| | b | n | t | l | m]; simpl; try discriminate; intros H;
    try (now left).
  - destruct (k =? "length"); [now right|].
    destruct (index_of_key k) as [i|]; [|now left].
    destruct (String.get i t); [now right | now left].
  - destruct (k =? "length"); [now right|].
    destruct (index_of_key k) as [i|]; [|now left].
    destruct (nth_In_or_default i l) as [Hin|Hd]; [|now left].
    right. rewrite forallb_forall in H. apply H. exact Hin.
  - destruct (lookup k m) as [x|] eqn:Hk; [|now left].
    destruct (lookup_In _ _ _ Hk) as [k' Hin].
    right. rewrite forallb_forall in H. apply (H (k', x)). exact Hin.
Qed.

(** Where no node is [null], the walk never throws: it returns the node
    it reaches, or [null] at the first segment that is missing. *)
Lemma walk_null_free (parts : list string) (current : json) :
  null_free current = true -> returns (walk parts current).
Proof.
  revert current. induction parts as [|part rest IH]; intros current H; simpl.
  - now exists current.
  - assert (Hn : nullish current = false) by (destruct current; try discriminate; reflexivity).
    unfold get. rewrite Hn. simpl.
    destruct (prop_null_free current part H) as [Hu|Hf].
    + rewrite Hu. now exists JNull.
    + destruct (prop current part) eqn:E; try discriminate; simpl; apply IH; exact Hf.
Qed.

Lemma resolveRef_null_free (r : string) (fullDoc : json) :
  null_free fullDoc = true -> returns (resolveRef r fullDoc).
Proof.
  intros H. unfold resolveRef.
  destruct (negb (truthy (JStr r)) || negb (truthy fullDoc)).
  - now exists JNull.
  - apply walk_null_free. exact H.
Qed.

(** C6.  The code at the failing input.  In a document whose
    [components.schemas] is [null], the pointer
    [#/components/schemas/Pet] names a segment [Pet] that does not exist
    under the node reached by [#/components/schemas].  That node is
    [null]: a pointer that stops there gets it, and [resolveRef] throws on
    the next segment instead of returning [null], whereas a segment
    missing from an object does give [null].  Inside
    [generateSampleJson] the exception reaches the [catch], so the whole
    sample becomes the diagnostic text. *)
Theorem resolveRef_throws_on_null_node :
  resolveRef "#/components/schemas" empty_schemas_doc = Ret JNull
  /\ resolveRef "#/components/schemas/Pet" empty_schemas_doc = Raise TypeError
  /\ resolveRef "#/components/responses/Pet" empty_schemas_doc = Ret JNull
  /\ generateSampleJson empty_schemas_doc ""
       (JObj [("type", JStr "object");
              ("properties",
               JObj [("pet", JObj [("$ref", JStr "#/components/schemas/Pet")])])])
     = Ret (JStr "Check Swagger Schema").
Proof. repeat split; reflexivity. Qed.

(** ** [generateTestCases] *)

Section TestCaseFacts.

Variable fullDoc : json.
Variable now : string.

Lemma filter_required_spec (params kept : list json) :
  filter_required params = Ret kept -> kept = filter required_truthy params.
Proof.
  revert kept. induction params as [|p rest IH]; simpl; intros kept.
  - now intros [= <-].
  - unfold get. destruct (nullish p); [discriminate|]. simpl.
    destruct (filter_required rest) as [kept'| |]; try discriminate. simpl.
    intros [= <-]. rewrite (IH kept' eq_refl). reflexivity.
Qed.

Lemma filter_nil_existsb {A : Type} (f : A -> bool) (l : list A) :
  filter f l = [] <-> existsb f l = false.
Proof.
  induction l as [|x l IH]; simpl; [tauto|].
  destruct (f x); simpl; [split; discriminate | exact IH].
Qed.

(** What a run of pushes does to the state. *)
Lemma push_all_spec (makers : list (nat -> TestCase)) (st : synth_state) :
  fold_left (fun s make => push_case make s) makers st
  = {| testCases := (testCases st ++ number_cases makers (idCounter st))%list;
       idCounter := idCounter st + length makers |}.
Proof.
  revert st. induction makers as [|make rest IH]; intros st; simpl.
  - rewrite app_nil_r, Nat.add_0_r. destruct st; reflexivity.
  - rewrite IH. simpl. rewrite <- app_assoc, Nat.add_succ_r. reflexivity.
Qed.

(** One iteration is a run of pushes: the positive and the unauthorized
    case, the missing-parameter case when some parameter passes the
    filter, the two body cases for a method with a body, and the
    invalid-types case. *)
Lemma endpoint_step_shape (ep : Endpoint) (st st' : synth_state) :
  endpoint_step fullDoc now ep st = Ret st' ->
  exists params testData missing,
    parameters ep = JArr params
    /\ ((existsb required_truthy params = false /\ missing = [])
        \/ (existsb required_truthy params = true
            /\ exists name, missing = [missing_mandatory_case ep name]))
    /\ st' = fold_left (fun s make => push_case make s) (makers_of ep testData missing) st.
Proof.
  unfold endpoint_step.
  destruct (parameters ep) as [| | | | | params |] eqn:Hparams; try discriminate.
  unfold endpoint_pushes.
  destruct (positive_test_data fullDoc now ep params) as [testData| |]; try discriminate.
  simpl. destruct (filter_required params) as [kept| |] eqn:Hf; try discriminate.
  apply filter_required_spec in Hf. simpl.
  destruct kept as [|first kept].
  - simpl. intros [= <-]. exists params, testData, []. split; [reflexivity|]. split.
    + left. split; [|reflexivity]. apply filter_nil_existsb. now symmetry.
    + unfold makers_of. destruct (has_body_method ep); reflexivity.
  - destruct (toStr (prop first "name")) as [name| |]; try discriminate. simpl.
    intros [= <-]. exists params, testData, [missing_mandatory_case ep name].
    split; [reflexivity|]. split.
    + right. split; [|now exists name].
      destruct (existsb required_truthy params) eqn:E; [reflexivity|].
      apply filter_nil_existsb in E. congruence.
    + unfold makers_of. destruct (has_body_method ep); reflexivity.
Qed.

Lemma number_cases_length (makers : list (nat -> TestCase)) (counter : nat) :
  length (number_cases makers counter) = length makers.
Proof.
  revert counter. induction makers as [|m rest IH]; intros counter; simpl;
    [reflexivity | now rewrite IH].
Qed.

Lemma number_cases_ids (makers : list (nat -> TestCase)) (counter : nat) :
  Forall (fun make => forall n, Test_Case_ID (make n) = test_id n) makers ->
  map Test_Case_ID (number_cases makers counter)
  = map test_id (seq counter (length makers)).
Proof.
  intros H. revert counter. induction H as [|m rest Hm Hrest IH]; intros counter; simpl.
  - reflexivity.
  - rewrite Hm, IH. reflexivity.
Qed.

Lemma number_cases_Forall (P : TestCase -> Prop) (makers : list (nat -> TestCase))
      (counter : nat) :
  Forall (fun make => forall n, P (make n)) makers ->
  Forall P (number_cases makers counter).
Proof.
  intros H. revert counter. induction H as [|m rest Hm Hrest IH]; intros counter; simpl;
    constructor; auto.
Qed.

(** Every iteration that returns has pushed a block. *)
Lemma endpoint_step_pushed (ep : Endpoint) (st st' : synth_state) :
  endpoint_step fullDoc now ep st = Ret st' ->
  exists pushed, pushed_by fullDoc now ep st pushed st'.
Proof.
  intros H. destruct (endpoint_step_shape _ _ _ H) as (params & testData & missing & _ & _ & ->).
  exists (number_cases (makers_of ep testData missing) (idCounter st)).
  unfold pushed_by. rewrite push_all_spec in *. simpl.
  rewrite number_cases_length. split; [exact H | split; reflexivity].
Qed.

(** The block of an iteration, read off its shape. *)
Lemma pushed_by_shape (ep : Endpoint) (st st' : synth_state) (pushed : list TestCase) :
  pushed_by fullDoc now ep st pushed st' ->
  exists params testData missing,
    parameters ep = JArr params
    /\ ((existsb required_truthy params = false /\ missing = [])
        \/ (existsb required_truthy params = true
            /\ exists name, missing = [missing_mandatory_case ep name]))
    /\ pushed = number_cases (makers_of ep testData missing) (idCounter st).
Proof.
  intros (Hstep & Hcases & _).
  destruct (endpoint_step_shape _ _ _ Hstep) as (params & testData & missing & Hp & Hm & ->).
  exists params, testData, missing. split; [exact Hp|]. split; [exact Hm|].
  rewrite push_all_spec in Hcases. simpl in Hcases.
  apply app_inv_head in Hcases. now symmetry.
Qed.

Ltac with_shape H :=
  let params := fresh "params" in
  let testData := fresh "testData" in
  let missing := fresh "missing" in
  let Hparams := fresh "Hparams" in
  let Hex := fresh "Hex" in
  let name := fresh "name" in
  apply pushed_by_shape in H;
  destruct H as (params & testData & missing & Hparams & [[Hex ->]|[Hex [name ->]]] & ->).

Lemma pushed_by_length ep st st' pushed :
  pushed_by fullDoc now ep st pushed st' -> length pushed = case_count ep.
Proof.
  intros H. with_shape H; rewrite number_cases_length; unfold case_count, makers_of;
    rewrite Hparams, Hex; destruct (has_body_method ep); reflexivity.
Qed.

Lemma pushed_by_owner ep st st' pushed :
  pushed_by fullDoc now ep st pushed st' ->
  Forall (fun tc => TC_Endpoint tc = path ep /\ TC_Method tc = method ep) pushed.
Proof.
  intros H. with_shape H; apply number_cases_Forall; unfold makers_of;
    destruct (has_body_method ep); repeat constructor.
Qed.

Lemma pushed_by_ids ep st st' pushed :
  pushed_by fullDoc now ep st pushed st' ->
  map Test_Case_ID pushed = map test_id (seq (idCounter st) (length pushed)).
Proof.
  intros H. with_shape H; rewrite number_cases_length; apply number_cases_ids;
    unfold makers_of; destruct (has_body_method ep); repeat constructor.
Qed.

Lemma pushed_by_positive ep st st' pushed :
  pushed_by fullDoc now ep st pushed st' ->
  exists testData others, pushed = positive_case ep testData (idCounter st) :: others.
Proof.
  intros H. with_shape H; unfold makers_of; simpl; eauto.
Qed.

(** The cases returned are the blocks pushed endpoint by endpoint. *)
Lemma forEach_endpoint_blocks (endpoints : list Endpoint) :
  forall st st2,
    forEach_endpoint fullDoc now endpoints st = Ret st2 ->
    exists blocks,
      numbered_blocks fullDoc now st endpoints blocks st2
      /\ testCases st2 = (testCases st ++ concat blocks)%list.
Proof.
  induction endpoints as [|ep rest IH]; intros st st2; simpl.
  - intros [= <-]. exists []. split; [constructor | now rewrite app_nil_r].
  - destruct (endpoint_step fullDoc now ep st) as [st1| |] eqn:E; try discriminate.
    simpl. intros H. destruct (IH _ _ H) as (blocks & Hb & Hcases).
    destruct (endpoint_step_pushed _ _ _ E) as [pushed Hpushed].
    exists (pushed :: blocks). split.
    + econstructor; eassumption.
    + rewrite Hcases. destruct Hpushed as (_ & -> & _). simpl. now rewrite app_assoc.
Qed.

Lemma generateTestCases_blocks (endpoints : list Endpoint) (result : list TestCase) :
  generateTestCases fullDoc now endpoints = Ret result ->
  exists blocks st2,
    result = concat blocks
    /\ numbered_blocks fullDoc now {| testCases := []; idCounter := 1 |}
                       endpoints blocks st2.
Proof.
  unfold generateTestCases.
  destruct (forEach_endpoint fullDoc now endpoints {| testCases := []; idCounter := 1 |})
    as [st2| |] eqn:E; try discriminate.
  simpl. intros [= <-].
  destruct (forEach_endpoint_blocks _ _ _ E) as (blocks & Hb & Hcases).
  exists blocks, st2. split; [exact Hcases | exact Hb].
Qed.

Lemma numbered_blocks_each (P : Endpoint -> list TestCase -> Prop) :
  (forall ep st st' pushed, pushed_by fullDoc now ep st pushed st' -> P ep pushed) ->
  forall st endpoints blocks st2,
    numbered_blocks fullDoc now st endpoints blocks st2 ->
    Forall2 P endpoints blocks.
Proof.
  intros HP st endpoints blocks st2 H.
  induction H; constructor; eauto.
Qed.

Lemma numbered_blocks_ids st endpoints blocks st2 :
  numbered_blocks fullDoc now st endpoints blocks st2 ->
  map Test_Case_ID (concat blocks)
  = map test_id (seq (idCounter st) (length (concat blocks))).
Proof.
  induction 1 as [|st st1 st2 ep rest pushed blocks Hep Hrest IH]; simpl.
  - reflexivity.
  - rewrite map_app, length_app, seq_app, map_app, IH.
    rewrite (pushed_by_ids _ _ _ _ Hep).
    destruct Hep as (_ & _ & ->). reflexivity.
Qed.

Lemma numbered_blocks_total st endpoints blocks st2 :
  numbered_blocks fullDoc now st endpoints blocks st2 ->
  length (concat blocks) = list_sum (map case_count endpoints).
Proof.
  induction 1 as [|st st1 st2 ep rest pushed blocks Hep Hrest IH]; simpl.
  - reflexivity.
  - rewrite length_app, IH, (pushed_by_length _ _ _ _ Hep). reflexivity.
Qed.

Lemma case_count_at_least_three (endpoints : list Endpoint) :
  3 * length endpoints <= list_sum (map case_count endpoints).
Proof.
  induction endpoints as [|ep rest IH]; [simpl; lia|].
  assert (H3 : 3 <= case_count ep) by (unfold case_count; lia).
  change (3 * S (length rest) <= case_count ep + list_sum (map case_count rest)).
  lia.
Qed.

(** *** Endpoints on which the synthesis returns *)

Lemma toStr_plain (v : json) : plain v = true -> returns (toStr v).
Proof. destruct v; simpl; try discriminate; intros _; now eexists. Qed.

Lemma generateSampleJson_plain (schema v : json) :
  generateSampleJson fullDoc now schema = Ret v -> plain v = true.
Proof.
  unfold generateSampleJson. destruct (negb (truthy schema)); [now intros [= <-]|].
  destruct (fst (sample_of fullDoc now schema [])) as [sample|e|]; simpl;
    try discriminate; try (now intros [= <-]).
  intros [= <-]. unfold JSON_stringify. destruct (stringify "" sample); reflexivity.
Qed.

Lemma map_outcome_returns {A B : Type} (f : A -> outcome B) (l : list A) :
  Forall (fun x => returns (f x)) l -> returns (map_outcome f l).
Proof.
  induction 1 as [|x l [y Hy] Hl [ys Hys]]; simpl.
  - now eexists.
  - rewrite Hy, Hys. simpl. now eexists.
Qed.

Lemma param_text_returns (p : json) :
  readable_param p = true -> returns (param_text p).
Proof.
  unfold readable_param, param_text, get. intros H.
  apply andb_true_iff in H. destruct H as [H Hexample].
  apply andb_true_iff in H. destruct H as [Hp Hname].
  apply negb_true_iff in Hp. rewrite Hp. simpl.
  destruct (toStr_plain _ Hname) as [name ->]. simpl.
  destruct (truthy (prop p "example")).
  - destruct (toStr_plain _ Hexample) as [example ->]. simpl. now eexists.
  - simpl. now eexists.
Qed.

Lemma positive_test_data_returns (ep : Endpoint) (params : list json) :
  forallb readable_param params = true ->
  returns (positive_test_data fullDoc now ep params).
Proof.
  intros H. unfold positive_test_data.
  destruct (truthy (body_schema ep)).
  - destruct (generateSampleJson_returns fullDoc now (body_schema ep)) as [v Hv].
    rewrite Hv. simpl.
    destruct (toStr_plain v (generateSampleJson_plain _ _ Hv)) as [t ->]. simpl.
    now eexists.
  - destruct (0 <? length params)%nat; [|now eexists].
    assert (Hall : returns (map_outcome param_text params)).
    { apply map_outcome_returns. rewrite forallb_forall in H.
      apply Forall_forall. intros p Hp. apply param_text_returns. auto. }
    destruct Hall as [texts ->]. simpl. now eexists.
Qed.

Lemma filter_required_returns (params : list json) :
  forallb readable_param params = true ->
  filter_required params = Ret (filter required_truthy params).
Proof.
  induction params as [|p rest IH]; simpl; intros H; [reflexivity|].
  apply andb_true_iff in H. destruct H as [Hp Hrest].
  unfold readable_param in Hp.
  apply andb_true_iff in Hp. destruct Hp as [Hp _].
  apply andb_true_iff in Hp. destruct Hp as [Hp _].
  apply negb_true_iff in Hp. unfold get. rewrite Hp. simpl.
  rewrite (IH Hrest). reflexivity.
Qed.

Lemma endpoint_step_returns (ep : Endpoint) (st : synth_state) :
  readable_endpoint ep = true -> returns (endpoint_step fullDoc now ep st).
Proof.
  unfold readable_endpoint, endpoint_step.
  destruct (parameters ep) as [| | | | | params |]; try discriminate. intros H.
  unfold endpoint_pushes.
  destruct (positive_test_data_returns ep params H) as [testData ->]. simpl.
  rewrite (filter_required_returns params H). simpl.
  destruct (filter required_truthy params) as [|first kept] eqn:Hkept.
  - simpl. now eexists.
  - assert (Hfirst : readable_param first = true).
    { rewrite forallb_forall in H. apply H.
      apply (proj1 (filter_In required_truthy first params)).
      rewrite Hkept. now left. }
    unfold readable_param in Hfirst.
    apply andb_true_iff in Hfirst. destruct Hfirst as [Hfirst _].
    apply andb_true_iff in Hfirst. destruct Hfirst as [_ Hname].
    destruct (toStr_plain _ Hname) as [name ->]. simpl. now eexists.
Qed.

Lemma forEach_endpoint_returns (endpoints : list Endpoint) :
  Forall (fun ep => readable_endpoint ep = true) endpoints ->
  forall st, returns (forEach_endpoint fullDoc now endpoints st).
Proof.
  induction 1 as [|ep rest Hep Hrest IH]; intros st; simpl.
  - now eexists.
  - destruct (endpoint_step_returns ep st Hep) as [st' ->]. simpl.
    apply IH.
Qed.

Lemma generateTestCases_returns (endpoints : list Endpoint) :
  Forall (fun ep => readable_endpoint ep = true) endpoints ->
  returns (generateTestCases fullDoc now endpoints).
Proof.
  intros H. unfold generateTestCases.
  destruct (forEach_endpoint_returns endpoints H {| testCases := []; idCounter := 1 |})
    as [st ->].
  simpl. now eexists.
Qed.

(** *** The claims on the test cases *)

(** C1 (amended).  The synthesis returns on every list of operations
    whose parameters are arrays of entries that can be read.  Whenever it
    returns, the cases of each operation are exactly 3, plus 1 when some
    parameter has a truthy [required], plus 2 when the method is POST, PUT
    or PATCH; they carry the path and the method of the operation; and the
    total is the sum of these counts, at least 3 per operation. *)
Theorem test_case_count (endpoints : list Endpoint) :
  (Forall (fun ep => readable_endpoint ep = true) endpoints ->
   returns (generateTestCases fullDoc now endpoints))
  /\ (forall result,
         generateTestCases fullDoc now endpoints = Ret result ->
         (exists blocks,
             result = concat blocks
             /\ Forall2 (fun ep pushed =>
                           length pushed = case_count ep
                           /\ Forall (fun tc => TC_Endpoint tc = path ep
                                                /\ TC_Method tc = method ep) pushed)
                        endpoints blocks)
         /\ length result = list_sum (map case_count endpoints)
         /\ 3 * length endpoints <= length result).
Proof.
  split.
  - apply generateTestCases_returns.
  - intros result H.
    destruct (generateTestCases_blocks _ _ H) as (blocks & st2 & -> & Hb).
    split; [|split].
    + exists blocks. split; [reflexivity|].
      apply (numbered_blocks_each
               (fun ep pushed =>
                  length pushed = case_count ep
                  /\ Forall (fun tc => TC_Endpoint tc = path ep /\ TC_Method tc = method ep)
                            pushed)) with (1 := fun ep st st' pushed Hep =>
                                                 conj (pushed_by_length _ _ _ _ Hep)
                                                      (pushed_by_owner _ _ _ _ Hep))
                                          (2 := Hb).
    + apply (numbered_blocks_total _ _ _ _ Hb).
    + rewrite (numbered_blocks_total _ _ _ _ Hb). apply case_count_at_least_three.
Qed.

(** C2.  In the sequence that one call returns, the identifier of the
    case at position i (counted from 0) is TC- followed by the decimal
    numeral of i + 1: the numbers run 1, 2, 3, ... in emission order,
    without gap, across the operations. *)
Theorem identifiers_are_dense (endpoints : list Endpoint) (result : list TestCase) :
  generateTestCases fullDoc now endpoints = Ret result ->
  map Test_Case_ID result
  = map (fun n => "TC-" ++ string_of_nat n) (seq 1 (length result)).
Proof.
  intros H. destruct (generateTestCases_blocks _ _ H) as (blocks & st2 & -> & Hb).
  apply (numbered_blocks_ids _ _ _ _ Hb).
Qed.

(** C8.  Whenever the synthesis returns, the first case of each
    operation is its positive case, and the expected result of that case
    names 201 Created when the method of the operation is POST and 200 OK
    for every other method. *)
Theorem positive_case_status (endpoints : list Endpoint) (result : list TestCase) :
  generateTestCases fullDoc now endpoints = Ret result ->
  exists blocks,
    result = concat blocks
    /\ Forall2 (fun ep pushed =>
                  exists positive others,
                    pushed = positive :: others
                    /\ Test_Scenario positive
                       = "Verify successful " ++ method ep ++ " request to " ++ path ep
                    /\ Expected_Result positive
                       = "Response status should be "
                         ++ (if method ep =? "POST" then "201 Created" else "200 OK")
                         ++ " and body should contain expected fields.")
               endpoints blocks.
Proof.
  intros H. destruct (generateTestCases_blocks _ _ H) as (blocks & st2 & -> & Hb).
  exists blocks. split; [reflexivity|].
  refine (numbered_blocks_each _ _ _ _ _ _ Hb).
  intros ep st st' pushed Hep.
  destruct (pushed_by_positive _ _ _ _ Hep) as (testData & others & ->).
  exists (positive_case ep testData (idCounter st)), others.
  repeat split; reflexivity.
Qed.

End TestCaseFacts.

Example parseSwagger_pets : parseSwagger pets_doc = Ret [pets_get; pets_post].
Proof. reflexivity. Qed.

Lemma test_case_count_witness :
  Forall (fun ep => readable_endpoint ep = true) [pets_get; pets_post]
  /\ exists result,
       generateTestCases pets_doc "" [pets_get; pets_post] = Ret result
       /\ length result = 8
       /\ 3 * 2 <= length result.
Proof.
  assert (Hr : Forall (fun ep => readable_endpoint ep = true) [pets_get; pets_post])
    by (repeat constructor).
  split; [exact Hr|].
  destruct (proj1 (test_case_count pets_doc "" [pets_get; pets_post]) Hr) as [result H].
  exists result. split; [exact H|].
  destruct (proj2 (test_case_count pets_doc "" [pets_get; pets_post]) result H)
    as (_ & Hsum & Hmin).
  split; [exact Hsum | exact Hmin].
Defined.

(** C1 as stated fails on the code.  A parameter with [required: 1] has
    no [required = true], yet it passes the [filter] and the operation
    gets four cases where the stated count is three; and on a [null]
    parameter entry the call throws and no case is returned. *)
Lemma stated_count_counterexample :
  (stated_case_count item_get = 3
   /\ exists result,
        generateTestCases (JObj []) "" [item_get] = Ret result
        /\ length result = 4
        /\ length result <> stated_case_count item_get)
  /\ generateTestCases (JObj []) "" [null_param_get] = Raise TypeError.
Proof.
  split; [split; [reflexivity|] | reflexivity].
  eexists. split; [reflexivity|]. split; [reflexivity|].
  vm_compute. discriminate.
Qed.

Lemma identifiers_are_dense_witness :
  exists result,
    generateTestCases pets_doc "" [pets_get; pets_post] = Ret result
    /\ map Test_Case_ID result
       = ["TC-1"; "TC-2"; "TC-3"; "TC-4"; "TC-5"; "TC-6"; "TC-7"; "TC-8"].
Proof.
  eexists. split; [reflexivity|].
  exact (identifiers_are_dense pets_doc "" [pets_get; pets_post] _ eq_refl).
Defined.

Lemma positive_case_status_witness :
  exists result,
    generateTestCases pets_doc "" [pets_get; pets_post] = Ret result
    /\ exists blocks,
         result = concat blocks
         /\ Forall2 (fun ep pushed =>
                       exists positive others,
                         pushed = positive :: others
                         /\ Test_Scenario positive
                            = "Verify successful " ++ method ep ++ " request to " ++ path ep
                         /\ Expected_Result positive
                            = "Response status should be "
                              ++ (if method ep =? "POST" then "201 Created" else "200 OK")
                              ++ " and body should contain expected fields.")
                    [pets_get; pets_post] blocks.
Proof.
  eexists. split; [reflexivity|].
  exact (positive_case_status pets_doc "" [pets_get; pets_post] _ eq_refl).
Defined.

Example pets_expected_results :
  (tcs <- generateTestCases pets_doc "" [pets_get; pets_post] ;;
   Ret (map (fun tc => (TC_Method tc, Expected_Result tc)) tcs))
  = Ret [("GET", "Response status should be 200 OK and body should contain expected fields.");
         ("GET", "Response status should be 401 Unauthorized.");
         ("GET", "Response status should be 400 Bad Request or 422 Unprocessable Entity.");
         ("POST", "Response status should be 201 Created and body should contain expected fields.");
         ("POST", "Response status should be 401 Unauthorized.");
         ("POST", "Response status should be 415 Unsupported Media Type.");
         ("POST", "Response status should be 400 Bad Request.");
         ("POST", "Response status should be 400 Bad Request or 422 Unprocessable Entity.")].
Proof. reflexivity. Qed.

(** ** [parseSwagger] *)

Lemma map_outcome_In {A B : Type} (f : A -> outcome B) (l : list A) (ys : list B) :
  map_outcome f l = Ret ys ->
  forall y, In y ys -> exists x, In x l /\ f x = Ret y.
Proof.
  revert ys. induction l as [|x l IH]; simpl; intros ys.
  - intros [= <-] y [].
  - destruct (f x) as [y0| |] eqn:E; try discriminate. simpl.
    destruct (map_outcome f l) as [ys0| |]; try discriminate. simpl.
    intros [= <-] y [<-|Hy].
    + exists x. split; [now left | exact E].
    + destruct (IH ys0 eq_refl y Hy) as (x' & Hx' & Hf).
      exists x'. split; [now right | exact Hf].
Qed.

Lemma upper_ascii_not_lower (c : ascii) : is_lower (upper_ascii c) = false.
Proof.
  destruct c as [[] [] [] [] [] [] [] []]; reflexivity.
Qed.

Lemma toUpperCase_no_lower (s : string) : has_lower (toUpperCase s) = false.
Proof.
  induction s as [|c s IH]; simpl; [reflexivity|].
  rewrite upper_ascii_not_lower, IH. reflexivity.
Qed.

(** Every endpoint returned comes from one operation of the document. *)
Lemma parseSwagger_source (data : json) (endpoints : list Endpoint) :
  parseSwagger data = Ret endpoints ->
  forall ep, In ep endpoints ->
    exists pathKey methodKey op,
      operation_at data pathKey methodKey op
      /\ endpoint_of pathKey methodKey op = Ret ep.
Proof.
  unfold parseSwagger, get. destruct (nullish data); [discriminate|]. simpl.
  destruct (object_keys (or_else (prop data "paths") (JObj []))) as [pathKeys| |] eqn:Hkeys;
    try discriminate. simpl.
  destruct (map_outcome (path_endpoints (or_else (prop data "paths") (JObj []))) pathKeys)
    as [per_path| |] eqn:Hmap; try discriminate. simpl.
  intros [= <-] ep Hep.
  apply in_concat in Hep. destruct Hep as (block & Hblock & Hin).
  destruct (map_outcome_In _ _ _ Hmap block Hblock) as (pathKey & HpathKey & Hpath).
  unfold path_endpoints in Hpath.
  destruct (object_keys (prop (or_else (prop data "paths") (JObj [])) pathKey))
    as [methods| |] eqn:Hmethods; try discriminate. simpl in Hpath.
  destruct (map_outcome_In _ _ _ Hpath ep Hin) as (methodKey & HmethodKey & Hop).
  exists pathKey, methodKey,
    (prop (prop (or_else (prop data "paths") (JObj [])) pathKey) methodKey).
  split; [|exact Hop].
  unfold operation_at. simpl. repeat split; eauto.
Qed.

(** C9 (amended).  Each endpoint that [parseSwagger] returns comes from
    an operation of the document, under a path key and a method key; its
    method is the method key in upper case; its parameters are the empty
    list and its responses the empty object when the operation omits
    them; its summary is the summary of the operation, else its
    description, else the text made of the method and the path; and its
    tags are those of the operation as they are, hence [undefined], not an
    empty collection, when the operation omits them. *)
Theorem parseSwagger_fields (data : json) (endpoints : list Endpoint) :
  parseSwagger data = Ret endpoints ->
  forall ep, In ep endpoints ->
    exists pathKey methodKey op,
      operation_at data pathKey methodKey op
      /\ path ep = pathKey
      /\ method ep = toUpperCase methodKey
      /\ has_lower (method ep) = false
      /\ (prop op "parameters" = JUndef -> parameters ep = JArr [])
      /\ (prop op "responses" = JUndef -> responses ep = JObj [])
      /\ tags ep = prop op "tags"
      /\ (prop op "tags" = JUndef -> tags ep = JUndef)
      /\ summary ep
         = (if truthy (prop op "summary") then prop op "summary"
            else if truthy (prop op "description") then prop op "description"
            else JStr (toUpperCase methodKey ++ " " ++ pathKey)).
Proof.
  intros H ep Hep.
  destruct (parseSwagger_source _ _ H ep Hep) as (pathKey & methodKey & op & Hat & Hof).
  exists pathKey, methodKey, op. split; [exact Hat|].
  unfold endpoint_of in Hof. destruct (nullish op); [discriminate|].
  injection Hof as <-. simpl.
  repeat split.
  - apply toUpperCase_no_lower.
  - intros ->. reflexivity.
  - intros ->. reflexivity.
  - intros ->. reflexivity.
Qed.

Lemma parseSwagger_fields_witness :
  parseSwagger pets_doc = Ret [pets_get; pets_post]
  /\ In pets_post [pets_get; pets_post]
  /\ exists pathKey methodKey op,
       operation_at pets_doc pathKey methodKey op
       /\ path pets_post = pathKey
       /\ method pets_post = toUpperCase methodKey
       /\ has_lower (method pets_post) = false
       /\ (prop op "parameters" = JUndef -> parameters pets_post = JArr [])
       /\ (prop op "responses" = JUndef -> responses pets_post = JObj [])
       /\ tags pets_post = prop op "tags"
       /\ (prop op "tags" = JUndef -> tags pets_post = JUndef)
       /\ summary pets_post
          = (if truthy (prop op "summary") then prop op "summary"
             else if truthy (prop op "description") then prop op "description"
             else JStr (toUpperCase methodKey ++ " " ++ pathKey)).
Proof.
  split; [reflexivity|].
  split; [right; left; reflexivity|].
  exact (parseSwagger_fields pets_doc [pets_get; pets_post] eq_refl pets_post
           (or_intror (or_introl eq_refl))).
Defined.

(** C9 as stated fails on the code: the [get] of the example omits its
    tags, and the endpoint has [undefined] there, not an empty
    collection. *)
Lemma tags_default_counterexample :
  parseSwagger pets_doc = Ret [pets_get; pets_post]
  /\ prop (prop (prop (prop pets_doc "paths") "/pets") "get") "tags" = JUndef
  /\ tags pets_get = JUndef
  /\ tags pets_get <> JArr [].
Proof. repeat split; try reflexivity. discriminate. Qed.

(** * Further properties of the service *)

(** ** [generate]: the rules for references, arrays, objects and dates *)

(** X1.  Every run of [generate] that returns a sample leaves the set of
    in-flight pointers exactly as it found it, at any depth of recursion:
    each [add] is undone by its [delete], so a pointer followed in one
    branch can be followed again in a sibling branch. *)
Theorem in_flight_set_restored (fullDoc : json) (now : string) (fuel : nat)
        (s v : json) (seen seen' : refset) :
  generate fullDoc now fuel s seen = (Ret v, seen') -> seen' = seen.
Proof. apply generate_restores. Qed.

Lemma in_flight_set_restored_witness :
  let s := JObj [("$ref", JStr "#/definitions/A")] in
  exists v seen',
    generate mutual_doc "" 9 s ["#/definitions/Z"] = (Ret v, seen')
    /\ seen' = ["#/definitions/Z"].
Proof.
  intros s. eexists. eexists. split; [reflexivity|].
  exact (in_flight_set_restored mutual_doc "" 9 s _ ["#/definitions/Z"] _ eq_refl).
Defined.

Lemma str_is_eq (v : json) (lit : string) : str_is v lit = true -> v = JStr lit.
Proof.
  destruct v; simpl; try discriminate. intros H. apply String.eqb_eq in H. now subst.
Qed.

(** X2.  An array schema (no [$ref], [allOf], [oneOf] or [anyOf]; [type]
    equal to [array]; an [items] schema) is sampled as the array of exactly
    one element, the sample of [items]; an [example] or [default] on the
    schema is not looked at. *)
Theorem array_sample_has_one_element (fullDoc : json) (now : string) (s item : json)
        (seen : refset) :
  truthy (prop s "$ref") = false ->
  truthy (prop s "allOf") = false ->
  truthy (prop s "oneOf") = false ->
  truthy (prop s "anyOf") = false ->
  str_is (prop s "type") "array" = true ->
  truthy (prop s "items") = true ->
  fst (sample_of fullDoc now (prop s "items") seen) = Ret item ->
  sample_of fullDoc now s seen = (Ret (JArr [item]), seen).
Proof.
  intros Href Hall Hone Hany Htype Hitems Hitem.
  rewrite (sample_of_unfold fullDoc now s seen). unfold generate_body.
  rewrite (prop_truthy_parent s "items" Hitems), Href, Hall, Hone, Hany, Hitems, Htype.
  rewrite (str_is_eq _ _ Htype). simpl.
  destruct (sample_of fullDoc now (prop s "items") seen) as [o seen1] eqn:E.
  simpl in Hitem. subst o.
  rewrite (sample_of_restores fullDoc now _ _ _ _ E). reflexivity.
Qed.

Lemma array_sample_has_one_element_witness :
  let s := JObj [("type", JStr "array"); ("example", JArr [JNum 1; JNum 2]);
                 ("items", JObj [("type", JStr "boolean")])] in
  sample_of (JObj []) "" s [] = (Ret (JArr [JBool true]), []).
Proof.
  intros s.
  exact (array_sample_has_one_element (JObj []) "" s (JBool true) []
           eq_refl eq_refl eq_refl eq_refl eq_refl eq_refl eq_refl).
Defined.

Lemma lookup_NoDup (k : string) (x : json) (m : obj) :
  NoDup (map fst m) -> In (k, x) m -> lookup k m = Some x.
Proof.
  induction m as [|[k' v] m IH]; simpl; [contradiction|].
  intros Hnd [[= -> ->]|Hin].
  - now rewrite String.eqb_refl.
  - inversion Hnd as [|? ? Hnotin Hnd']; subst.
    destruct (k' =? k) eqn:E.
    + apply String.eqb_eq in E. subst k'. exfalso. apply Hnotin.
      apply in_map_iff. now exists (k, x).
    + apply IH; assumption.
Qed.

Lemma has_key_app (k : string) (m1 m2 : obj) :
  has_key k (m1 ++ m2)%list = has_key k m1 || has_key k m2.
Proof.
  unfold has_key. rewrite lookup_app. destruct (lookup k m1); reflexivity.
Qed.

(** The loop over the declared properties appends one field per key, in
    order, when the keys are distinct and none is an index or
    [__proto__]. *)
Lemma properties_loop_fields (fullDoc : json) (now : string) (seen : refset) (fields : obj) :
  forall (todo : obj) (samples : list json),
    Forall2 (fun kv v => fst (sample_of fullDoc now (snd kv) seen) = Ret v) todo samples ->
    forall o,
      (forall k x, In (k, x) todo -> lookup k fields = Some x) ->
      NoDup (map fst todo) ->
      (forall k, In k (map fst todo) -> has_key k o = false) ->
      Forall (fun k => index_of_key k = None /\ k <> "__proto__") (map fst todo) ->
      properties_loop (sample_of fullDoc now) (JObj fields) (map fst todo) o seen
      = (Ret (JObj (o ++ combine (map fst todo) samples)%list), seen).
Proof.
  induction 1 as [|[k x] v todo samples Hkv Hrest IH]; intros o Hlook Hnd Hfresh Hkeys; simpl.
  - now rewrite app_nil_r.
  - simpl in Hkv.
    rewrite (Hlook k x (or_introl eq_refl)).
    destruct (sample_of fullDoc now x seen) as [r seen1] eqn:E. simpl in Hkv. subst r.
    rewrite (sample_of_restores fullDoc now _ _ _ _ E).
    inversion Hnd as [|? ? Hnotin Hnd']; subst.
    inversion Hkeys as [|? ? [Hidx Hproto] Hkeys']; subst.
    assert (Hassign : assign o k v = (o ++ [(k, v)])%list).
    { unfold assign. apply String.eqb_neq in Hproto. rewrite Hproto.
      unfold obj_set. rewrite (Hfresh k (or_introl eq_refl)), Hidx. reflexivity. }
    rewrite Hassign, IH; try assumption.
    + now rewrite <- app_assoc.
    + intros k' x' Hin. apply Hlook. now right.
    + intros k' Hin. rewrite has_key_app, (Hfresh k' (or_intror Hin)). simpl.
      unfold has_key. simpl. destruct (k =? k') eqn:Ek; [|reflexivity].
      apply String.eqb_eq in Ek. subst k'. contradiction.
Qed.

(** X3.  An object schema (no [$ref], [allOf], [oneOf] or [anyOf]; [type]
    equal to [object] or absent; [properties] an object) whose property
    keys are distinct, none an array index or [__proto__], is sampled as
    the object that has exactly the declared keys, in the declared order,
    each with the sample of its property schema. *)
Theorem object_sample_keeps_declared_keys (fullDoc : json) (now : string) (s : json)
        (fields : obj) (samples : list json) (seen : refset) :
  truthy (prop s "$ref") = false ->
  truthy (prop s "allOf") = false ->
  truthy (prop s "oneOf") = false ->
  truthy (prop s "anyOf") = false ->
  str_is (prop s "type") "object" || negb (truthy (prop s "type")) = true ->
  prop s "properties" = JObj fields ->
  NoDup (map fst fields) ->
  Forall (fun k => index_of_key k = None /\ k <> "__proto__") (map fst fields) ->
  Forall2 (fun kv v => fst (sample_of fullDoc now (snd kv) seen) = Ret v) fields samples ->
  sample_of fullDoc now s seen = (Ret (JObj (combine (map fst fields) samples)), seen).
Proof.
  intros Href Hall Hone Hany Htype Hprops Hnd Hkeys Hsamples.
  rewrite (sample_of_unfold fullDoc now s seen). unfold generate_body.
  assert (Hs : truthy s = true)
    by (apply (prop_truthy_parent s "properties"); now rewrite Hprops).
  rewrite Hs, Href, Hall, Hone, Hany, Htype, Hprops. simpl.
  apply (properties_loop_fields fullDoc now seen fields fields samples Hsamples []);
    try assumption.
  - intros k x Hin. apply lookup_NoDup; assumption.
  - reflexivity.
Qed.

Lemma object_sample_keeps_declared_keys_witness :
  let fields := [("id", JObj [("type", JStr "integer")]);
                 ("name", JObj [("type", JStr "string")]);
                 ("active", JObj [("type", JStr "boolean")])] in
  let s := JObj [("type", JStr "object"); ("properties", JObj fields)] in
  sample_of (JObj []) "" s []
  = (Ret (JObj [("id", JNum 0); ("name", JStr "sample_string"); ("active", JBool true)]), []).
Proof.
  intros fields s.
  refine (object_sample_keeps_declared_keys (JObj []) "" s fields
            [JNum 0; JStr "sample_string"; JBool true] []
            eq_refl eq_refl eq_refl eq_refl eq_refl eq_refl _ _ _).
  - repeat constructor; simpl; intuition discriminate.
  - repeat constructor; discriminate.
  - repeat constructor.
Defined.

Lemma split_on_nonempty (sep : ascii) (s : string) : split_on sep s <> [].
Proof.
  induction s as [|c s IH]; simpl; [discriminate|].
  destruct (Ascii.eqb c sep); [discriminate|].
  destruct (split_on sep s); [contradiction | discriminate].
Qed.

Lemma split_on_hd_no_sep (sep : ascii) (s : string) :
  has_char sep (hd "" (split_on sep s)) = false.
Proof.
  induction s as [|c s IH]; simpl; [reflexivity|].
  destruct (Ascii.eqb c sep) eqn:E; [reflexivity|].
  destruct (split_on sep s) as [|h t] eqn:Hs; simpl in *; rewrite E; [reflexivity | exact IH].
Qed.

Lemma split_on_hd_prefix (sep : ascii) (s : string) :
  String.prefix (hd "" (split_on sep s)) s = true.
Proof.
  induction s as [|c s IH]; simpl; [reflexivity|].
  destruct (Ascii.eqb c sep); [reflexivity|].
  destruct (split_on sep s) as [|h t] eqn:Hs; simpl in *.
  - destruct (ascii_dec c c); [|contradiction]. destruct s; reflexivity.
  - destruct (ascii_dec c c); [exact IH | contradiction].
Qed.

Lemma split_on_app (sep : ascii) (a b : string) :
  split_on sep (a ++ String sep b) = (split_on sep a ++ split_on sep b)%list.
Proof.
  induction a as [|c a IH]; simpl.
  - now rewrite Ascii.eqb_refl.
  - destruct (Ascii.eqb c sep); [now rewrite IH|].
    rewrite IH. pose proof (split_on_nonempty sep a) as Hne.
    destruct (split_on sep a) as [|h t]; [contradiction | reflexivity].
Qed.

Lemma split_on_no_sep (sep : ascii) (a : string) :
  has_char sep a = false -> split_on sep a = [a].
Proof.
  induction a as [|c a IH]; simpl; [reflexivity|].
  intros H. apply orb_false_iff in H. destruct H as [Hc Ha].
  rewrite Hc, (IH Ha). reflexivity.
Qed.

(** X4.  A string schema with [format] equal to [date] (no composition
    keyword, no [example], no [default]) is sampled as the part of the
    current ISO instant that precedes its first letter T: a prefix of the
    instant without any T in it, hence the date alone when the instant
    reads date, T, time. *)
Theorem date_sample_has_no_time (fullDoc : json) (now : string) (s : json) (seen : refset) :
  truthy (prop s "$ref") = false ->
  truthy (prop s "allOf") = false ->
  truthy (prop s "oneOf") = false ->
  truthy (prop s "anyOf") = false ->
  prop s "example" = JUndef ->
  prop s "default" = JUndef ->
  str_is (prop s "type") "string" = true ->
  str_is (prop s "format") "date" = true ->
  exists d,
    sample_of fullDoc now s seen = (Ret (JStr d), seen)
    /\ has_char "T" d = false
    /\ String.prefix d now = true
    /\ (forall date time,
           now = date ++ String "T" time -> has_char "T" date = false -> d = date).
Proof.
  intros Href Hall Hone Hany Hex Hdef Htype Hformat.
  exists (hd "" (split_on "T" now)). split; [|split; [|split]].
  - rewrite (sample_of_unfold fullDoc now s seen). unfold generate_body, leaf_sample, string_sample.
    assert (Hs : truthy s = true)
      by (apply (prop_truthy_parent s "type"); now rewrite (str_is_eq _ _ Htype)).
    rewrite Hs, Href, Hall, Hone, Hany, Hex, Hdef.
    rewrite (str_is_eq _ _ Htype), (str_is_eq _ _ Hformat). reflexivity.
  - apply split_on_hd_no_sep.
  - apply split_on_hd_prefix.
  - intros date time -> Hdate.
    rewrite split_on_app, (split_on_no_sep _ _ Hdate). reflexivity.
Qed.

Lemma date_sample_has_no_time_witness :
  let s := JObj [("type", JStr "string"); ("format", JStr "date")] in
  sample_of (JObj []) "2026-11-02T08:30:00.000Z" s [] = (Ret (JStr "2026-11-02"), []).
Proof.
  intros s.
  destruct (date_sample_has_no_time (JObj []) "2026-11-02T08:30:00.000Z" s []
              eq_refl eq_refl eq_refl eq_refl eq_refl eq_refl eq_refl eq_refl)
    as (d & Hd & _ & _ & Hdate).
  rewrite Hd. rewrite (Hdate "2026-11-02" "08:30:00.000Z" eq_refl eq_refl). reflexivity.
Defined.

(** ** [resolveRef]: documents without [null], and how pointers compose *)




(** X6.  The leading [#/] of a pointer is optional: a non-empty pointer
    that does not start with [#/] resolves exactly as the same pointer
    with [#/] put before it. *)
Theorem resolveRef_prefix_optional (pointer : string) (fullDoc : json) :
  pointer <> "" ->
  strip_pointer_prefix pointer = pointer ->
  resolveRef ("#/" ++ pointer) fullDoc = resolveRef pointer fullDoc.
Proof.
  intros Hne Hstrip. unfold resolveRef.
  assert (Hp : truthy (JStr pointer) = true)
    by (simpl; apply negb_true_iff, String.eqb_neq; exact Hne).
  rewrite Hp, Hstrip. reflexivity.
Qed.

Lemma resolveRef_prefix_optional_witness :
  resolveRef "#/components/schemas/A/type" cyclic_doc
  = resolveRef "components/schemas/A/type" cyclic_doc
  /\ resolveRef "components/schemas/A/type" cyclic_doc = Ret (JStr "object").
Proof.
  split; [|reflexivity].
  apply (resolveRef_prefix_optional "components/schemas/A/type" cyclic_doc).
  - discriminate.
  - reflexivity.
Defined.

Lemma walk_app (first second : list string) (current v : json) :
  walk first current = Ret v -> truthy v = true ->
  walk (first ++ second) current = walk second v.
Proof.
  revert current. induction first as [|part rest IH]; intros current; simpl.
  - now intros [= ->].
  - unfold get. destruct (nullish current); [discriminate|]. simpl.
    destruct (is_undef (prop current part)).
    + intros [= <-]. discriminate.
    + apply IH.
Qed.

(** X7.  Pointers compose: when [#/] followed by [outer] resolves to a
    truthy node, the pointer that continues with a slash and [inner]
    resolves, from the root, to what [inner] resolves to from that
    node. *)
Theorem resolveRef_compose (outer inner : string) (fullDoc v : json) :
  resolveRef ("#/" ++ outer) fullDoc = Ret v ->
  truthy v = true ->
  inner <> "" ->
  strip_pointer_prefix inner = inner ->
  resolveRef ("#/" ++ outer ++ "/" ++ inner) fullDoc = resolveRef inner v.
Proof.
  unfold resolveRef. intros Houter Hv Hne Hstrip.
  assert (Hi : truthy (JStr inner) = true)
    by (simpl; apply negb_true_iff, String.eqb_neq; exact Hne).
  rewrite Hi, Hv, Hstrip. simpl negb. simpl orb.
  simpl in Houter |- *.
  destruct (truthy fullDoc); simpl in Houter |- *.
  - rewrite split_on_app. apply walk_app; assumption.
  - injection Houter as <-. discriminate.
Qed.

Lemma resolveRef_compose_witness :
  let v := JObj [("type", JStr "string")] in
  resolveRef "#/components/schemas/A/properties/name" cyclic_doc = Ret v
  /\ resolveRef "#/components/schemas/A/properties/name/type" cyclic_doc
     = resolveRef "type" v.
Proof.
  intros v. split; [reflexivity|].
  apply (resolveRef_compose "components/schemas/A/properties/name" "type" cyclic_doc v).
  - reflexivity.
  - reflexivity.
  - discriminate.
  - reflexivity.
Defined.

(** ** [parseSwagger]: which endpoints, in which order, and when it throws *)

Lemma map_outcome_Forall2 {A B : Type} (f : A -> outcome B) (l : list A) (ys : list B) :
  map_outcome f l = Ret ys -> Forall2 (fun x y => f x = Ret y) l ys.
Proof.
  revert ys. induction l as [|x l IH]; simpl; intros ys.
  - intros [= <-]. constructor.
  - destruct (f x) as [y| |] eqn:E; try discriminate. simpl.
    destruct (map_outcome f l) as [ys0| |]; try discriminate. simpl.
    intros [= <-]. constructor; [exact E | apply IH; reflexivity].
Qed.

Lemma map_outcome_returns_inv {A B : Type} (f : A -> outcome B) (l : list A) :
  returns (map_outcome f l) -> Forall (fun x => returns (f x)) l.
Proof.
  intros [ys H]. apply map_outcome_Forall2 in H.
  induction H as [|x y l ys Hx Hrest IH]; constructor; [now exists y | exact IH].
Qed.

Lemma keys_or_nil_spec (v : json) (keys : list string) :
  object_keys v = Ret keys -> keys_or_nil v = keys.
Proof. unfold keys_or_nil. now intros ->. Qed.

Lemma object_keys_returns (v : json) :
  returns (object_keys v) <-> nullish v = false.
Proof.
  destruct v; simpl; split; intros H; try reflexivity; try discriminate;
    try (now eexists); destruct H; discriminate.
Qed.

Lemma path_endpoints_keys (paths : json) (pathKey : string) (block : list Endpoint) :
  path_endpoints paths pathKey = Ret block ->
  map (fun ep => (path ep, method ep)) block
  = map (fun methodKey => (pathKey, toUpperCase methodKey))
        (keys_or_nil (prop paths pathKey)).
Proof.
  unfold path_endpoints.
  destruct (object_keys (prop paths pathKey)) as [methods| |] eqn:Hkeys; try discriminate.
  rewrite (keys_or_nil_spec _ _ Hkeys). clear Hkeys. simpl. intros H.
  apply map_outcome_Forall2 in H.
  induction H as [|methodKey ep methods block Hep Hrest IH]; simpl; [reflexivity|].
  rewrite IH.
  unfold endpoint_of in Hep.
  destruct (nullish (prop (prop paths pathKey) methodKey)); [discriminate|].
  injection Hep as <-. reflexivity.
Qed.

(** X8.  [parseSwagger] returns one endpoint for every key of every path
    item, in the order of the document: the paths in key order and, under
    each path, the keys of its item in key order, with the key in upper
    case as method.  No key is skipped, whether or not it names an HTTP
    method. *)
Theorem parseSwagger_one_endpoint_per_key (data : json) (endpoints : list Endpoint) :
  parseSwagger data = Ret endpoints ->
  map (fun ep => (path ep, method ep)) endpoints
  = flat_map (fun pathKey =>
                map (fun methodKey => (pathKey, toUpperCase methodKey))
                    (keys_or_nil (prop (or_else (prop data "paths") (JObj [])) pathKey)))
             (keys_or_nil (or_else (prop data "paths") (JObj []))).
Proof.
  unfold parseSwagger, get. destruct (nullish data); [discriminate|]. simpl.
  destruct (object_keys (or_else (prop data "paths") (JObj []))) as [pathKeys| |] eqn:Hkeys;
    try discriminate.
  rewrite (keys_or_nil_spec _ _ Hkeys). clear Hkeys. simpl.
  destruct (map_outcome (path_endpoints (or_else (prop data "paths") (JObj []))) pathKeys)
    as [per_path| |] eqn:Hmap; try discriminate. simpl.
  intros [= <-]. apply map_outcome_Forall2 in Hmap.
  induction Hmap as [|pathKey block pathKeys per_path Hblock Hrest IH]; simpl; [reflexivity|].
  rewrite map_app, IH, (path_endpoints_keys _ _ _ Hblock). reflexivity.
Qed.

Lemma parseSwagger_one_endpoint_per_key_witness :
  let item := JObj [("parameters", JArr [JObj [("name", JStr "id")]]);
                    ("get", JObj []); ("delete", JObj [])] in
  let data := JObj [("paths", JObj [("/pets/{id}", item); ("/health", JObj [("get", JObj [])])])] in
  exists endpoints,
    parseSwagger data = Ret endpoints
    /\ map (fun ep => (path ep, method ep)) endpoints
       = [("/pets/{id}", "PARAMETERS"); ("/pets/{id}", "GET"); ("/pets/{id}", "DELETE");
          ("/health", "GET")].
Proof.
  intros item data. eexists. split; [reflexivity|].
  exact (parseSwagger_one_endpoint_per_key data _ eq_refl).
Defined.

Lemma endpoint_of_returns (pathKey methodKey : string) (op : json) :
  returns (endpoint_of pathKey methodKey op) <-> nullish op = false.
Proof.
  unfold endpoint_of. destruct (nullish op); split; intros H;
    try reflexivity; try discriminate; try (now eexists).
  destruct H. discriminate.
Qed.

Lemma path_endpoints_returns (paths : json) (pathKey : string) :
  returns (path_endpoints paths pathKey)
  <-> nullish (prop paths pathKey) = false
      /\ forall methodKey,
           In methodKey (keys_or_nil (prop paths pathKey)) ->
           nullish (prop (prop paths pathKey) methodKey) = false.
Proof.
  unfold path_endpoints. split.
  - intros H.
    destruct (object_keys (prop paths pathKey)) as [methods| |] eqn:Hkeys;
      try (destruct H; discriminate).
    rewrite (keys_or_nil_spec _ _ Hkeys). split.
    + apply object_keys_returns. now exists methods.
    + simpl in H. apply map_outcome_returns_inv in H.
      rewrite Forall_forall in H. intros methodKey Hin.
      apply (endpoint_of_returns pathKey methodKey). apply H. exact Hin.
  - intros [Hitem Hops].
    destruct (proj2 (object_keys_returns _) Hitem) as [methods Hkeys].
    rewrite Hkeys. rewrite (keys_or_nil_spec _ _ Hkeys) in Hops. simpl.
    apply map_outcome_returns. apply Forall_forall. intros methodKey Hin.
    apply endpoint_of_returns. apply Hops. exact Hin.
Qed.

(** X9.  [parseSwagger] throws exactly on three shapes of document: the
    document itself is [null] or [undefined], some path item is [null],
    or some value under a path item is [null].  On every other document,
    also one without [paths], it returns. *)
Theorem parseSwagger_returns_iff (data : json) :
  returns (parseSwagger data)
  <-> nullish data = false
      /\ forall pathKey,
           In pathKey (keys_or_nil (or_else (prop data "paths") (JObj []))) ->
           nullish (prop (or_else (prop data "paths") (JObj [])) pathKey) = false
           /\ forall methodKey,
                In methodKey
                   (keys_or_nil (prop (or_else (prop data "paths") (JObj [])) pathKey)) ->
                nullish (prop (prop (or_else (prop data "paths") (JObj [])) pathKey)
                              methodKey) = false.
Proof.
  assert (Hpaths : nullish (or_else (prop data "paths") (JObj [])) = false).
  { unfold or_else. destruct (truthy (prop data "paths")) eqn:E; [|reflexivity].
    destruct (prop data "paths"); try discriminate; reflexivity. }
  destruct (proj2 (object_keys_returns _) Hpaths) as [pathKeys Hkeys].
  unfold parseSwagger, get. rewrite (keys_or_nil_spec _ _ Hkeys).
  destruct (nullish data).
  - split; [intros [? H]; discriminate | intros [H _]; discriminate].
  - simpl. rewrite Hkeys. simpl. split.
    + intros H. split; [reflexivity|].
      assert (Hall : returns (map_outcome
                                (path_endpoints (or_else (prop data "paths") (JObj [])))
                                pathKeys)).
      { destruct (map_outcome (path_endpoints (or_else (prop data "paths") (JObj [])))
                              pathKeys) as [per_path| |];
          [now eexists | destruct H; discriminate | destruct H; discriminate]. }
      apply map_outcome_returns_inv in Hall. rewrite Forall_forall in Hall.
      intros pathKey Hin. apply path_endpoints_returns. apply Hall. exact Hin.
    + intros [_ H].
      assert (Hall : returns (map_outcome
                                (path_endpoints (or_else (prop data "paths") (JObj [])))
                                pathKeys)).
      { apply map_outcome_returns. apply Forall_forall. intros pathKey Hin.
        apply path_endpoints_returns. apply H. exact Hin. }
      destruct Hall as [per_path ->]. simpl. now eexists.
Qed.

Lemma parseSwagger_returns_iff_witness :
  returns (parseSwagger pets_doc)
  /\ ~ returns (parseSwagger (JObj [("paths", JObj [("/pets", JNull)])])).
Proof.
  split.
  - apply (proj2 (parseSwagger_returns_iff pets_doc)). split; [reflexivity|].
    intros pathKey [<-|[]]. split; [reflexivity|].
    intros methodKey [<-|[<-|[]]]; reflexivity.
  - intros H.
    destruct (proj1 (parseSwagger_returns_iff (JObj [("paths", JObj [("/pets", JNull)])])) H)
      as [_ Hitems].
    destruct (Hitems "/pets" (or_introl eq_refl)) as [Hnull _]. discriminate Hnull.
Defined.

Lemma or_else_truthy (v fallback : json) :
  truthy fallback = true -> truthy (or_else v fallback) = true.
Proof. unfold or_else. destruct (truthy v) eqn:E; [now rewrite E | trivial]. Qed.

(** X10.  In every endpoint that [parseSwagger] returns, the summary, the
    parameters and the responses are truthy: none of the three is absent,
    [null] or empty text, so that the exporters can read
    [ep.responses['200']] and call [ep.summary.replace] without a check
    for a missing value. *)
Theorem parseSwagger_fields_present (data : json) (endpoints : list Endpoint) :
  parseSwagger data = Ret endpoints ->
  forall ep, In ep endpoints ->
    truthy (summary ep) = true
    /\ truthy (parameters ep) = true
    /\ truthy (responses ep) = true.
Proof.
  intros H ep Hep.
  destruct (parseSwagger_source _ _ H ep Hep) as (pathKey & methodKey & op & _ & Hof).
  unfold endpoint_of in Hof. destruct (nullish op); [discriminate|].
  injection Hof as <-. simpl. repeat split.
  - apply or_else_truthy, or_else_truthy. simpl.
    destruct (toUpperCase methodKey); reflexivity.
  - apply or_else_truthy. reflexivity.
  - apply or_else_truthy. reflexivity.
Qed.

Lemma parseSwagger_fields_present_witness :
  parseSwagger pets_doc = Ret [pets_get; pets_post]
  /\ truthy (summary pets_post) = true
  /\ truthy (parameters pets_post) = true
  /\ truthy (responses pets_post) = true.
Proof.
  split; [reflexivity|].
  exact (parseSwagger_fields_present pets_doc [pets_get; pets_post] eq_refl pets_post
           (or_intror (or_introl eq_refl))).
Defined.

(** ** [generateTestCases]: order, content and failure of a run *)

Section TestCaseOrder.

Variable fullDoc : json.
Variable now : string.

Lemma find_filter {A : Type} (f : A -> bool) (l : list A) :
  find f l = hd_error (filter f l).
Proof.
  induction l as [|x l IH]; simpl; [reflexivity|].
  destruct (f x); [reflexivity | exact IH].
Qed.

(** The block of an iteration, with the parameter that the
    missing-parameter case names. *)
Lemma pushed_by_missing (ep : Endpoint) (st st' : synth_state) (pushed : list TestCase) :
  pushed_by fullDoc now ep st pushed st' ->
  exists params testData missing,
    parameters ep = JArr params
    /\ pushed = number_cases (makers_of ep testData missing) (idCounter st)
    /\ match find required_truthy params with
       | None => missing = []
       | Some first =>
           exists name,
             toStr (prop first "name") = Ret name
             /\ missing = [missing_mandatory_case ep name]
       end.
Proof.
  intros (Hstep & Hcases & _). unfold endpoint_step in Hstep.
  destruct (parameters ep) as [| | | | | params |] eqn:Hparams; try discriminate.
  unfold endpoint_pushes in Hstep.
  destruct (positive_test_data fullDoc now ep params) as [testData| |]; try discriminate.
  simpl in Hstep. destruct (filter_required params) as [kept| |] eqn:Hf; try discriminate.
  apply filter_required_spec in Hf. simpl in Hstep.
  destruct kept as [|first kept]; simpl in Hstep |- *.
  - injection Hstep as <-. exists params, testData, []. split; [reflexivity|].
    split; [|rewrite find_filter, <- Hf; reflexivity].
    assert (Hall : push_case (invalid_types_case ep)
                     (if has_body_method ep
                      then push_case (malformed_body_case ep)
                             (push_case (content_type_case ep)
                                (push_case (unauthorized_case ep)
                                   (push_case (positive_case ep testData) st)))
                      else push_case (unauthorized_case ep)
                             (push_case (positive_case ep testData) st))
                   = fold_left (fun s make => push_case make s) (makers_of ep testData []) st)
      by (unfold makers_of; destruct (has_body_method ep); reflexivity).
    rewrite Hall, push_all_spec in Hcases. simpl in Hcases.
    apply app_inv_head in Hcases. now symmetry.
  - destruct (toStr (prop first "name")) as [name| |] eqn:Hname; try discriminate.
    simpl in Hstep. injection Hstep as <-.
    exists params, testData, [missing_mandatory_case ep name]. split; [reflexivity|].
    split; [|rewrite find_filter, <- Hf; now exists name].
    assert (Hall : push_case (invalid_types_case ep)
                     (if has_body_method ep
                      then push_case (malformed_body_case ep)
                             (push_case (content_type_case ep)
                                (push_case (missing_mandatory_case ep name)
                                   (push_case (unauthorized_case ep)
                                      (push_case (positive_case ep testData) st))))
                      else push_case (missing_mandatory_case ep name)
                             (push_case (unauthorized_case ep)
                                (push_case (positive_case ep testData) st)))
                   = fold_left (fun s make => push_case make s)
                               (makers_of ep testData [missing_mandatory_case ep name]) st)
      by (unfold makers_of; destruct (has_body_method ep); reflexivity).
    rewrite Hall, push_all_spec in Hcases. simpl in Hcases.
    apply app_inv_head in Hcases. now symmetry.
Qed.

Lemma find_existsb {A : Type} (f : A -> bool) (l : list A) :
  existsb f l = match find f l with Some _ => true | None => false end.
Proof.
  induction l as [|x l IH]; simpl; [reflexivity|].
  destruct (f x); [reflexivity | exact IH].
Qed.

(** X11.  Whenever the synthesis returns, the cases of each operation
    come in one fixed order: positive, unauthorized (401), the
    missing-parameter case (400) when some parameter passes the filter,
    unsupported content type (415) then malformed body (400) for POST, PUT
    and PATCH, and invalid data types (400 or 422) last. *)
Theorem scenario_order (endpoints : list Endpoint) (result : list TestCase) :
  generateTestCases fullDoc now endpoints = Ret result ->
  exists blocks,
    result = concat blocks
    /\ Forall2 (fun ep pushed =>
                  exists params,
                    parameters ep = JArr params
                    /\ map Expected_Result pushed = expected_results ep params)
               endpoints blocks.
Proof.
  intros H. destruct (generateTestCases_blocks _ _ _ _ H) as (blocks & st2 & -> & Hb).
  exists blocks. split; [reflexivity|].
  refine (numbered_blocks_each _ _ _ _ _ _ _ _ Hb).
  intros ep st st' pushed Hep.
  destruct (pushed_by_missing _ _ _ _ Hep) as (params & testData & missing & Hp & -> & Hm).
  exists params. split; [exact Hp|].
  unfold expected_results, makers_of. rewrite find_existsb.
  destruct (find required_truthy params) as [first|].
  - destruct Hm as (name & _ & ->). destruct (has_body_method ep); reflexivity.
  - subst missing. destruct (has_body_method ep); reflexivity.
Qed.

(** X12.  Whenever the synthesis returns, an operation that has a
    parameter with a truthy [required] gets as its third case the
    missing-parameter case, and that case names the first such parameter
    of the list, whatever parameters follow it. *)
Theorem missing_case_names_first_required (endpoints : list Endpoint)
        (result : list TestCase) :
  generateTestCases fullDoc now endpoints = Ret result ->
  exists blocks,
    result = concat blocks
    /\ Forall2 (fun ep pushed =>
                  forall params first,
                    parameters ep = JArr params ->
                    find required_truthy params = Some first ->
                    exists name third,
                      toStr (prop first "name") = Ret name
                      /\ nth_error pushed 2 = Some third
                      /\ Test_Data third = "Missing " ++ name
                      /\ Test_Scenario third
                         = "Verify " ++ method ep ++ " request to " ++ path ep
                           ++ " with missing mandatory parameters")
               endpoints blocks.
Proof.
  intros H. destruct (generateTestCases_blocks _ _ _ _ H) as (blocks & st2 & -> & Hb).
  exists blocks. split; [reflexivity|].
  refine (numbered_blocks_each _ _ _ _ _ _ _ _ Hb).
  intros ep st st' pushed Hep params first Hparams Hfind.
  destruct (pushed_by_missing _ _ _ _ Hep) as (params' & testData & missing & Hp & -> & Hm).
  rewrite Hparams in Hp. injection Hp as <-. rewrite Hfind in Hm.
  destruct Hm as (name & Hname & ->).
  exists name, (missing_mandatory_case ep name (S (S (idCounter st)))).
  repeat split; try reflexivity. exact Hname.
Qed.

(** X13.  Whenever the synthesis returns, every case has an empty
    [Actual Result] and an empty [Status]: the two columns are left for
    the person who runs the tests. *)
Theorem result_columns_are_empty (endpoints : list Endpoint) (result : list TestCase) :
  generateTestCases fullDoc now endpoints = Ret result ->
  Forall (fun tc => Actual_Result tc = "" /\ Status tc = "") result.
Proof.
  intros H. destruct (generateTestCases_blocks _ _ _ _ H) as (blocks & st2 & -> & Hb).
  assert (Hall : Forall2 (fun (_ : Endpoint) pushed =>
                            Forall (fun tc => Actual_Result tc = "" /\ Status tc = "") pushed)
                         endpoints blocks).
  { refine (numbered_blocks_each _ _ _ _ _ _ _ _ Hb).
    intros ep st st' pushed Hep.
    destruct (pushed_by_missing _ _ _ _ Hep) as (params & testData & missing & _ & -> & Hm).
    apply number_cases_Forall. unfold makers_of.
    destruct (find required_truthy params); [destruct Hm as (name & _ & ->)|subst missing];
      destruct (has_body_method ep); repeat constructor. }
  clear Hb H. induction Hall as [|ep pushed endpoints blocks Hp Hrest IH]; simpl.
  - constructor.
  - apply Forall_app. split; assumption.
Qed.

End TestCaseOrder.

Lemma scenario_order_witness :
  exists result,
    generateTestCases pets_doc "" [pets_get; pet_put] = Ret result
    /\ exists blocks,
         result = concat blocks
         /\ Forall2 (fun ep pushed =>
                       exists params,
                         parameters ep = JArr params
                         /\ map Expected_Result pushed = expected_results ep params)
                    [pets_get; pet_put] blocks.
Proof.
  eexists. split; [reflexivity|].
  exact (scenario_order pets_doc "" [pets_get; pet_put] _ eq_refl).
Defined.

Example pet_put_expected_results :
  expected_results pet_put
    [JObj [("name", JStr "verbose"); ("required", JBool false)];
     JObj [("name", JStr "id"); ("required", JBool true)];
     JObj [("name", JStr "token"); ("required", JBool true)]]
  = ["Response status should be 200 OK and body should contain expected fields.";
     "Response status should be 401 Unauthorized.";
     "Response status should be 400 Bad Request with validation error message.";
     "Response status should be 415 Unsupported Media Type.";
     "Response status should be 400 Bad Request.";
     "Response status should be 400 Bad Request or 422 Unprocessable Entity."].
Proof. reflexivity. Qed.

Lemma missing_case_names_first_required_witness :
  exists result,
    generateTestCases pets_doc "" [pet_put] = Ret result
    /\ exists blocks,
         result = concat blocks
         /\ Forall2 (fun ep pushed =>
                       forall params first,
                         parameters ep = JArr params ->
                         find required_truthy params = Some first ->
                         exists name third,
                           toStr (prop first "name") = Ret name
                           /\ nth_error pushed 2 = Some third
                           /\ Test_Data third = "Missing " ++ name
                           /\ Test_Scenario third
                              = "Verify " ++ method ep ++ " request to " ++ path ep
                                ++ " with missing mandatory parameters")
                    [pet_put] blocks.
Proof.
  eexists. split; [reflexivity|].
  exact (missing_case_names_first_required pets_doc "" [pet_put] _ eq_refl).
Defined.

Lemma result_columns_are_empty_witness :
  exists result,
    generateTestCases pets_doc "" [pets_get; pets_post; pet_put] = Ret result
    /\ Forall (fun tc => Actual_Result tc = "" /\ Status tc = "") result.
Proof.
  eexists. split; [reflexivity|].
  exact (result_columns_are_empty pets_doc "" [pets_get; pets_post; pet_put] _ eq_refl).
Defined.

(** ** [generateTestCases]: a malformed operation, and longer lists *)

Section TestCaseRuns.

Variable fullDoc : json.
Variable now : string.

Lemma toStr_elements_fuel_free (l : list json) :
  (forall x, In x l -> toStr x <> NoFuel) -> toStr (JArr l) <> NoFuel.
Proof.
  intros H.
  assert (Hel : (fix elements (l : list json) : outcome (list string) :=
                   match l with
                   | [] => Ret []
                   | x :: rest =>
                       t <- (if nullish x then Ret "" else toStr x) ;;
                       ts <- elements rest ;;
                       Ret (t :: ts)
                   end) l <> NoFuel).
  { induction l as [|x l IH]; [discriminate|].
    pose proof (H x (or_introl eq_refl)) as Hx.
    assert (Hrest : forall y, In y l -> toStr y <> NoFuel) by (intros y Hy; apply H; now right).
    specialize (IH Hrest).
    destruct (nullish x).
    - simpl. match goal with |- bind ?m _ <> _ => destruct m end;
        [discriminate | discriminate | contradiction].
    - destruct (toStr x) as [t| |]; simpl; [|discriminate|contradiction].
      match goal with |- bind ?m _ <> _ => destruct m end;
        [discriminate | discriminate | contradiction]. }
  simpl. match goal with |- bind ?m _ <> _ => destruct m end;
    [discriminate | discriminate | contradiction].
Qed.

Lemma toStr_fuel_free_sized (n : nat) :
  forall v, size v <= n -> toStr v <> NoFuel.
Proof.
  induction n as [|n IH]; intros v Hv.
  - pose proof (size_pos v). lia.
  - destruct v as [| | b | z | t | l | m]; try discriminate.
    + apply toStr_elements_fuel_free. intros x Hx. apply IH.
      pose proof (size_element x l Hx). lia.
    + simpl. destruct (has_key "toString" m); discriminate.
Qed.

Lemma toStr_fuel_free (v : json) : toStr v <> NoFuel.
Proof. apply (toStr_fuel_free_sized (size v)). apply Nat.le_refl. Qed.

Lemma map_outcome_fuel_free {A B : Type} (f : A -> outcome B) (l : list A) :
  (forall x, f x <> NoFuel) -> map_outcome f l <> NoFuel.
Proof.
  intros H. induction l as [|x l IH]; simpl; [discriminate|].
  pose proof (H x) as Hx. destruct (f x); [|discriminate|contradiction]. simpl.
  destruct (map_outcome f l); [discriminate | discriminate | contradiction].
Qed.

Lemma param_text_fuel_free (p : json) : param_text p <> NoFuel.
Proof.
  unfold param_text, get. destruct (nullish p); [discriminate|]. simpl.
  pose proof (toStr_fuel_free (prop p "name")) as Hn.
  destruct (toStr (prop p "name")); [|discriminate|contradiction]. simpl.
  destruct (truthy (prop p "example")); [|discriminate].
  pose proof (toStr_fuel_free (prop p "example")) as He.
  destruct (toStr (prop p "example")); [discriminate | discriminate | contradiction].
Qed.

Lemma positive_test_data_fuel_free (ep : Endpoint) (params : list json) :
  positive_test_data fullDoc now ep params <> NoFuel.
Proof.
  unfold positive_test_data. destruct (truthy (body_schema ep)).
  - destruct (generateSampleJson_returns fullDoc now (body_schema ep)) as [v ->]. simpl.
    pose proof (toStr_fuel_free v) as Hv.
    destruct (toStr v); [discriminate | discriminate | contradiction].
  - destruct (0 <? length params)%nat; [|discriminate].
    pose proof (map_outcome_fuel_free param_text params param_text_fuel_free) as Hm.
    destruct (map_outcome param_text params); [discriminate | discriminate | contradiction].
Qed.

Lemma filter_required_null_entry (params : list json) :
  existsb nullish params = true -> filter_required params = Raise TypeError.
Proof.
  induction params as [|p rest IH]; simpl; [discriminate|].
  unfold get. destruct (nullish p); [reflexivity|]. simpl. intros H.
  rewrite (IH H). reflexivity.
Qed.

(** One iteration computes its makers, then pushes them. *)
Lemma endpoint_step_makers (ep : Endpoint) (st : synth_state) :
  endpoint_step fullDoc now ep st
  = (makers <- endpoint_makers fullDoc now ep ;;
     Ret (fold_left (fun s make => push_case make s) makers st)).
Proof.
  unfold endpoint_step, endpoint_makers.
  destruct (parameters ep) as [| | | | | params |]; try reflexivity.
  unfold endpoint_pushes.
  destruct (positive_test_data fullDoc now ep params) as [testData| |]; try reflexivity.
  simpl. destruct (filter_required params) as [[|first kept]| |]; try reflexivity; simpl.
  - unfold makers_of. destruct (has_body_method ep); reflexivity.
  - destruct (toStr (prop first "name")) as [name| |]; try reflexivity. simpl.
    unfold makers_of. destruct (has_body_method ep); reflexivity.
Qed.

Lemma endpoint_makers_bad (ep : Endpoint) :
  bad_parameters ep = true -> endpoint_makers fullDoc now ep = Raise TypeError.
Proof.
  unfold bad_parameters, endpoint_makers.
  destruct (parameters ep) as [| | | | | params |]; try reflexivity. intros H.
  pose proof (positive_test_data_fuel_free ep params) as Hp.
  destruct (positive_test_data fullDoc now ep params) as [testData|[]|];
    [|reflexivity|contradiction].
  simpl. rewrite (filter_required_null_entry params H). reflexivity.
Qed.

Lemma endpoint_makers_fuel_free (ep : Endpoint) :
  endpoint_makers fullDoc now ep <> NoFuel.
Proof.
  unfold endpoint_makers.
  destruct (parameters ep) as [| | | | | params |]; try discriminate.
  pose proof (positive_test_data_fuel_free ep params) as Hp.
  destruct (positive_test_data fullDoc now ep params) as [testData| |];
    [|discriminate|contradiction].
  simpl. destruct (filter_required params) as [[|first kept]| |] eqn:Hf; simpl;
    try discriminate.
  - pose proof (toStr_fuel_free (prop first "name")) as Hn.
    destruct (toStr (prop first "name")); [discriminate | discriminate | contradiction].
  - exfalso. clear Hp. revert Hf. clear. induction params as [|p rest IH]; simpl;
      [discriminate|].
    unfold get. destruct (nullish p); [discriminate|]. simpl.
    destruct (filter_required rest); [discriminate | discriminate | intros _; now apply IH].
Qed.

(** The whole loop computes the makers of all the endpoints, then pushes
    them. *)
Lemma forEach_endpoint_makers (endpoints : list Endpoint) (st : synth_state) :
  forEach_endpoint fullDoc now endpoints st
  = (makerss <- map_outcome (endpoint_makers fullDoc now) endpoints ;;
     Ret (fold_left (fun s make => push_case make s) (concat makerss) st)).
Proof.
  revert st. induction endpoints as [|ep rest IH]; intros st; simpl; [reflexivity|].
  rewrite endpoint_step_makers.
  destruct (endpoint_makers fullDoc now ep) as [makers| |]; try reflexivity. simpl.
  rewrite IH.
  destruct (map_outcome (endpoint_makers fullDoc now) rest) as [makerss| |];
    try reflexivity.
  simpl. now rewrite fold_left_app.
Qed.

Lemma generateTestCases_makers (endpoints : list Endpoint) :
  generateTestCases fullDoc now endpoints
  = (makerss <- map_outcome (endpoint_makers fullDoc now) endpoints ;;
     Ret (number_cases (concat makerss) 1)).
Proof.
  unfold generateTestCases. rewrite forEach_endpoint_makers.
  destruct (map_outcome (endpoint_makers fullDoc now) endpoints) as [makerss| |];
    try reflexivity.
  simpl. rewrite push_all_spec. reflexivity.
Qed.

Lemma map_outcome_raises {A B : Type} (f : A -> outcome B) (l : list A) (x : A) :
  (forall y, f y <> NoFuel) ->
  In x l -> f x = Raise TypeError -> map_outcome f l = Raise TypeError.
Proof.
  intros Hfree. induction l as [|y l IH]; simpl; [contradiction|].
  intros [->|Hin] Hx.
  - rewrite Hx. reflexivity.
  - pose proof (Hfree y) as Hy.
    destruct (f y) as [b|[]|]; [|reflexivity|contradiction]. simpl.
    rewrite (IH Hin Hx). reflexivity.
Qed.

(** X14.  One operation whose [parameters] is not an array, or has a
    [null] entry, makes the whole call throw a [TypeError], wherever the
    operation stands in the list: no case is returned for any
    operation. *)
Theorem malformed_operation_aborts_run (endpoints : list Endpoint) (ep : Endpoint) :
  In ep endpoints ->
  bad_parameters ep = true ->
  generateTestCases fullDoc now endpoints = Raise TypeError.
Proof.
  intros Hin Hbad. rewrite generateTestCases_makers.
  rewrite (map_outcome_raises (endpoint_makers fullDoc now) endpoints ep
             endpoint_makers_fuel_free Hin (endpoint_makers_bad ep Hbad)).
  reflexivity.
Qed.

Lemma number_cases_app (first second : list (nat -> TestCase)) (counter : nat) :
  number_cases (first ++ second) counter
  = (number_cases first counter ++ number_cases second (counter + length first))%list.
Proof.
  revert counter. induction first as [|make first IH]; intros counter; simpl.
  - now rewrite Nat.add_0_r.
  - rewrite IH, Nat.add_succ_r. reflexivity.
Qed.

Lemma map_outcome_app {A B : Type} (f : A -> outcome B) (l1 l2 : list A) (ys : list B) :
  map_outcome f (l1 ++ l2) = Ret ys ->
  exists ys1 ys2,
    map_outcome f l1 = Ret ys1 /\ map_outcome f l2 = Ret ys2 /\ ys = (ys1 ++ ys2)%list.
Proof.
  revert ys. induction l1 as [|x l1 IH]; simpl; intros ys.
  - intros H. exists [], ys. repeat split. exact H.
  - destruct (f x) as [y| |]; try discriminate. simpl.
    destruct (map_outcome f (l1 ++ l2)) as [ys0| |] eqn:E; try discriminate. simpl.
    intros [= <-]. destruct (IH ys0 eq_refl) as (ys1 & ys2 & -> & H2 & ->).
    exists (y :: ys1), ys2. simpl. repeat split. exact H2.
Qed.

Lemma endpoint_makers_id_only (ep : Endpoint) (makers : list (nat -> TestCase)) :
  endpoint_makers fullDoc now ep = Ret makers -> Forall id_only makers.
Proof.
  unfold endpoint_makers.
  destruct (parameters ep) as [| | | | | params |]; try discriminate.
  destruct (positive_test_data fullDoc now ep params) as [testData| |]; try discriminate.
  simpl. destruct (filter_required params) as [[|first kept]| |]; try discriminate; simpl.
  - intros [= <-]. unfold makers_of. destruct (has_body_method ep);
      repeat constructor.
  - destruct (toStr (prop first "name")) as [name| |]; try discriminate. simpl.
    intros [= <-]. unfold makers_of. destruct (has_body_method ep);
      repeat constructor.
Qed.

Lemma number_cases_renumbered (makers : list (nat -> TestCase)) (c1 c2 : nat) :
  Forall id_only makers ->
  map without_id (number_cases makers c1) = map without_id (number_cases makers c2)
  /\ map Test_Case_ID (number_cases makers c1) = map test_id (seq c1 (length makers)).
Proof.
  intros H. revert c1 c2. induction H as [|make makers Hm Hrest IH]; intros c1 c2; simpl.
  - split; reflexivity.
  - destruct (IH (S c1) (S c2)) as [IH1 IH2]. rewrite IH1, IH2.
    rewrite (proj2 (Hm c1)), (proj2 (Hm c2)), (proj1 (Hm c1)). split; reflexivity.
Qed.

(** X15.  The cases of a list of operations are the cases of its first
    part followed by the cases of the rest: the rest gets the cases it
    would get on its own, identical in every column but the identifier,
    which goes on counting from where the first part stopped. *)
Theorem cases_of_longer_list (first rest : list Endpoint) (result : list TestCase) :
  generateTestCases fullDoc now (first ++ rest) = Ret result ->
  exists head tail alone,
    generateTestCases fullDoc now first = Ret head
    /\ generateTestCases fullDoc now rest = Ret alone
    /\ result = (head ++ tail)%list
    /\ map without_id tail = map without_id alone
    /\ map Test_Case_ID tail = map test_id (seq (1 + length head) (length tail)).
Proof.
  rewrite !generateTestCases_makers.
  destruct (map_outcome (endpoint_makers fullDoc now) (first ++ rest)) as [makerss| |] eqn:E;
    try discriminate.
  simpl. intros [= <-].
  destruct (map_outcome_app _ _ _ _ E) as (ms1 & ms2 & H1 & H2 & ->).
  rewrite H1, H2. simpl. rewrite concat_app, number_cases_app.
  exists (number_cases (concat ms1) 1), (number_cases (concat ms2) (1 + length (concat ms1))),
    (number_cases (concat ms2) 1).
  assert (Hid : Forall id_only (concat ms2)).
  { apply map_outcome_Forall2 in H2. clear -H2.
    induction H2 as [|ep makers rest ms Hep Hrest IH]; simpl; [constructor|].
    apply Forall_app. split; [exact (endpoint_makers_id_only _ _ Hep) | exact IH]. }
  destruct (number_cases_renumbered (concat ms2) (1 + length (concat ms1)) 1 Hid)
    as [Hsame Hids].
  rewrite !number_cases_length. repeat split; assumption.
Qed.

End TestCaseRuns.

Lemma malformed_operation_aborts_run_witness :
  In null_param_get [pets_get; pets_post; null_param_get]
  /\ bad_parameters null_param_get = true
  /\ generateTestCases pets_doc "" [pets_get; pets_post; null_param_get] = Raise TypeError.
Proof.
  assert (Hin : In null_param_get [pets_get; pets_post; null_param_get])
    by (right; right; left; reflexivity).
  split; [exact Hin|]. split; [reflexivity|].
  exact (malformed_operation_aborts_run pets_doc "" _ null_param_get Hin eq_refl).
Defined.

Lemma cases_of_longer_list_witness :
  exists result head tail alone,
    generateTestCases pets_doc "" ([pets_get] ++ [pets_post]) = Ret result
    /\ generateTestCases pets_doc "" [pets_get] = Ret head
    /\ generateTestCases pets_doc "" [pets_post] = Ret alone
    /\ result = (head ++ tail)%list
    /\ map without_id tail = map without_id alone
    /\ map Test_Case_ID tail = map test_id (seq (1 + length head) (length tail)).
Proof.
  destruct (cases_of_longer_list pets_doc "" [pets_get] [pets_post] _ eq_refl)
    as (head & tail & alone & H1 & H2 & H3 & H4 & H5).
  eexists. exists head, tail, alone. split; [reflexivity|].
  repeat split; assumption.
Defined.

(** ** [generatePythonScripts] *)

Lemma sanitized_char_is_name_char (c : ascii) :
  is_name_char (lower_ascii (if is_alnum c then c else "_"%char)) = true.
Proof. destruct c as [[] [] [] [] [] [] [] []]; reflexivity. Qed.

Lemma sanitized_is_name (text : string) :
  all_chars is_name_char (toLowerCase (replace_non_alnum text)) = true.
Proof.
  induction text as [|c text IH]; simpl; [reflexivity|].
  rewrite sanitized_char_is_name_char, IH. reflexivity.
Qed.

Lemma sanitized_length (text : string) :
  String.length (toLowerCase (replace_non_alnum text)) = String.length text.
Proof. induction text as [|c text IH]; simpl; [reflexivity | now rewrite IH]. Qed.

Lemma all_chars_app (test : ascii -> bool) (a b : string) :
  all_chars test (a ++ b) = all_chars test a && all_chars test b.
Proof.
  induction a as [|c a IH]; simpl; [reflexivity|].
  rewrite IH. now rewrite andb_assoc.
Qed.

Lemma uint_digits_are_name_chars (d : Decimal.uint) :
  all_chars is_name_char (NilEmpty.string_of_uint d) = true.
Proof. induction d; simpl; try reflexivity; exact IHd. Qed.

(** X16.  The name of a generated test function is never empty and is
    made of lower-case letters, digits and underscores only, whatever the
    summary: a non-empty summary gives a name of the same length, each
    character that is not a letter or a digit replaced by an underscore,
    and the empty summary gives the name built from the index. *)
Theorem methodName_is_identifier (text : string) (index : nat) :
  methodName text index <> ""
  /\ all_chars is_name_char (methodName text index) = true
  /\ (text <> "" -> String.length (methodName text index) = String.length text)
  /\ (text = "" -> methodName text index = "test_endpoint_" ++ string_of_nat index).
Proof.
  unfold methodName.
  destruct (toLowerCase (replace_non_alnum text) =? "") eqn:E.
  - apply String.eqb_eq in E. repeat split.
    + discriminate.
    + rewrite all_chars_app. unfold string_of_nat.
      rewrite uint_digits_are_name_chars. reflexivity.
    + intros Hne. exfalso. apply Hne.
      pose proof (sanitized_length text) as Hlen. rewrite E in Hlen.
      destruct text; [reflexivity | discriminate].
  - apply String.eqb_neq in E. repeat split.
    + exact E.
    + apply sanitized_is_name.
    + intros _. apply sanitized_length.
    + intros ->. exfalso. apply E. reflexivity.
Qed.

Lemma methodName_is_identifier_witness :
  "GET /pets/{id}" <> ""
  /\ methodName "GET /pets/{id}" 3 = "get__pets__id_"
  /\ String.length (methodName "GET /pets/{id}" 3) = String.length "GET /pets/{id}".
Proof.
  assert (Hne : "GET /pets/{id}" <> "") by discriminate.
  split; [exact Hne|]. split; [reflexivity|].
  exact (proj1 (proj2 (proj2 (methodName_is_identifier "GET /pets/{id}" 3))) Hne).
Defined.

Lemma python_tests_returns (endpoints : list Endpoint) :
  forall index script,
    returns (python_tests endpoints index script)
    <-> Forall (fun ep => exists text, summary ep = JStr text) endpoints.
Proof.
  induction endpoints as [|ep rest IH]; intros index script; simpl.
  - split; [constructor | now eexists].
  - unfold python_test at 1. destruct (summary ep) as [| | | | text | |] eqn:Hs; simpl;
      try (split; [intros [? H]; discriminate
                  | intros H; inversion H as [|? ? [text Ht] ?]; congruence]).
    split.
    + intros H. constructor; [now exists text|]. exact (proj1 (IH _ _) H).
    + intros H. apply (proj2 (IH _ _)). now inversion H.
Qed.

(** X17.  [generatePythonScripts] reaches its download exactly when the
    summary of every endpoint is a string; a summary of any other kind (a
    number, an object, a missing summary) makes it throw before anything
    is downloaded.  The file it downloads is [api_automation_tests.py]
    with type [text/x-python]. *)
Theorem generatePythonScripts_returns_iff (endpoints : list Endpoint) :
  (returns (generatePythonScripts endpoints)
   <-> Forall (fun ep => exists text, summary ep = JStr text) endpoints)
  /\ (forall file,
         generatePythonScripts endpoints = Ret file ->
         fileName file = "api_automation_tests.py" /\ contentType file = "text/x-python").
Proof.
  unfold generatePythonScripts. split.
  - rewrite <- (python_tests_returns endpoints 0 python_header).
    destruct (python_tests endpoints 0 python_header) as [script| |]; simpl; split;
      intros [x H]; try discriminate; now eexists.
  - intros file.
    destruct (python_tests endpoints 0 python_header) as [script| |]; simpl;
      try discriminate.
    intros [= <-]. split; reflexivity.
Qed.

Lemma generatePythonScripts_returns_iff_witness :
  returns (generatePythonScripts [pets_get; pets_post])
  /\ ~ returns (generatePythonScripts
                  [pets_get;
                   {| path := "/n"; method := "GET"; summary := JNum 5;
                      parameters := JArr []; responses := JObj []; requestBody := JUndef;
                      operationId := JUndef; tags := JUndef |}]).
Proof.
  split.
  - apply (proj2 (proj1 (generatePythonScripts_returns_iff [pets_get; pets_post]))).
    repeat constructor; eexists; reflexivity.
  - intros H.
    apply (proj1 (proj1 (generatePythonScripts_returns_iff _))) in H.
    inversion H as [|? ? _ Hrest]. inversion Hrest as [|? ? [text Ht] _]. discriminate Ht.
Defined.

(** ** [generatePostman]: the folders *)

Lemma has_key_In (k : string) (m : obj) :
  has_key k m = false <-> ~ In k (map fst m).
Proof.
  unfold has_key. induction m as [|[k' v] m IH]; simpl.
  - split; [intros _ [] | reflexivity].
  - destruct (k' =? k) eqn:E.
    + apply String.eqb_eq in E. subst k'. split; [discriminate | intros H; exfalso; auto].
    + apply String.eqb_neq in E. rewrite IH. split; [intros H [?|?]; auto | auto].
Qed.

Lemma obj_replace_keys (k : string) (v : json) (m : obj) :
  map fst (obj_replace k v m) = map fst m.
Proof.
  induction m as [|[k' v'] m IH]; simpl; [reflexivity|].
  destruct (k' =? k) eqn:E; simpl; [|now rewrite IH].
  apply String.eqb_eq in E. now subst.
Qed.

Lemma obj_insert_index_split (i : nat) (k : string) (v : json) (m : obj) :
  exists before after,
    m = (before ++ after)%list
    /\ obj_insert_index i k v m = (before ++ (k, v) :: after)%list.
Proof.
  induction m as [|[k' v'] m IH]; simpl.
  - exists [], []. split; reflexivity.
  - destruct (index_of_key k') as [j|]; [destruct (i <? j)%nat|].
    + exists [], ((k', v') :: m). split; reflexivity.
    + destruct IH as (before & after & Hm & Hins).
      exists ((k', v') :: before), after. simpl. rewrite <- Hm, Hins. split; reflexivity.
    + exists [], ((k', v') :: m). split; reflexivity.
Qed.

(** A new key is put somewhere among the fields, which stay as they
    are. *)
Lemma obj_set_split (m : obj) (k : string) (v : json) :
  has_key k m = false ->
  exists before after,
    m = (before ++ after)%list /\ obj_set m k v = (before ++ (k, v) :: after)%list.
Proof.
  intros H. unfold obj_set. rewrite H.
  destruct (index_of_key k) as [i|]; [apply obj_insert_index_split|].
  exists m, []. split; [now rewrite app_nil_r | reflexivity].
Qed.

Lemma has_key_obj_set (k k' : string) (v : json) (m : obj) :
  has_key k' (obj_set m k v) = (k =? k') || has_key k' m.
Proof. unfold has_key. rewrite lookup_obj_set. destruct (k =? k'); reflexivity. Qed.

Lemma has_key_obj_replace (k k' : string) (v : json) (m : obj) :
  has_key k m = true -> has_key k' (obj_replace k v m) = has_key k' m.
Proof.
  intros H. unfold has_key at 1. rewrite (lookup_obj_replace k' k v m H).
  destruct (k =? k') eqn:E; [|reflexivity].
  apply String.eqb_eq in E. subst k'. now rewrite H.
Qed.

Lemma item_count_app (m1 m2 : obj) :
  item_count (m1 ++ m2)%list = item_count m1 + item_count m2.
Proof.
  unfold item_count. rewrite map_app. induction (map _ m1) as [|n l IH]; simpl;
    [reflexivity | rewrite IH; lia].
Qed.

Lemma item_count_push (k : string) (items : list json) (x : json) (m : obj) :
  lookup k m = Some (JArr items) ->
  item_count (obj_replace k (JArr (items ++ [x])) m) = S (item_count m).
Proof.
  induction m as [|[k' v'] m IH]; simpl; [discriminate|].
  destruct (k' =? k).
  - intros [= ->]. unfold item_count. simpl. rewrite length_app. simpl. lia.
  - intros H. specialize (IH H). unfold item_count in *. simpl. rewrite IH. lia.
Qed.

Lemma folders_ok_new (folders : obj) (key : string) :
  folders_ok folders -> has_key key folders = false -> inherited key = false ->
  folders_ok (obj_set folders key (JArr []))
  /\ item_count (obj_set folders key (JArr [])) = item_count folders.
Proof.
  intros (Hnd & Harr & Hinh) Hnew Hkey.
  destruct (obj_set_split folders key (JArr []) Hnew) as (before & after & Hm & Hset).
  split; [split; [|split]|].
  - rewrite Hset, map_app. simpl. rewrite Hm, map_app in Hnd.
    apply (NoDup_Add (Add_app key (map fst before) (map fst after))). split; [exact Hnd|].
    rewrite <- map_app, <- Hm. now apply has_key_In.
  - rewrite Hset. rewrite Hm in Harr. apply Forall_app in Harr. destruct Harr as [Hb Ha].
    apply Forall_app. split; [exact Hb|]. constructor; [now exists [] | exact Ha].
  - intros k Hk. rewrite has_key_obj_set, (Hinh k Hk).
    destruct (key =? k) eqn:E; [|reflexivity].
    apply String.eqb_eq in E. subst k. congruence.
  - rewrite Hset, Hm, !item_count_app. unfold item_count. simpl. lia.
Qed.

Lemma folders_ok_push (folders : obj) (key : string) (items : list json) (x : json) :
  folders_ok folders -> lookup key folders = Some (JArr items) ->
  folders_ok (obj_replace key (JArr (items ++ [x])) folders).
Proof.
  intros (Hnd & Harr & Hinh) Hlook.
  assert (Hhas : has_key key folders = true) by (unfold has_key; now rewrite Hlook).
  split; [|split].
  - now rewrite obj_replace_keys.
  - clear -Harr. induction Harr as [|[k' v'] m Hx Hrest IH]; simpl; [constructor|].
    destruct (k' =? key); constructor; try assumption. now eexists.
  - intros k Hk. rewrite (has_key_obj_replace _ _ _ _ Hhas). now apply Hinh.
Qed.

(** One iteration that returns has filed its item under the key of its
    first tag, and has kept everything filed before. *)
Lemma postman_step_files (ep : Endpoint) (folders folders' : obj) :
  postman_step ep folders = Ret folders' ->
  folders_ok folders ->
  exists key scripts,
    toStr (first_tag ep) = Ret key
    /\ testScripts ep = Ret scripts
    /\ folders_ok folders'
    /\ item_count folders' = S (item_count folders)
    /\ (exists items,
           lookup key folders' = Some (JArr items) /\ In (postman_item ep scripts) items)
    /\ (forall k items x,
           lookup k folders = Some (JArr items) -> In x items ->
           exists items', lookup k folders' = Some (JArr items') /\ In x items').
Proof.
  unfold postman_step. intros H Hok.
  destruct (toStr (first_tag ep)) as [key| |]; try discriminate. simpl in H.
  destruct (testScripts ep) as [scripts| |]; try discriminate. simpl in H.
  exists key, scripts. split; [reflexivity|]. split; [reflexivity|].
  set (folders1 := if has_key key folders || inherited key then folders
                   else obj_set folders key (JArr [])) in *.
  assert (H1 : folders_ok folders1 /\ item_count folders1 = item_count folders
               /\ forall k items, lookup k folders = Some (JArr items) ->
                                  lookup k folders1 = Some (JArr items)).
  { unfold folders1. destruct (has_key key folders) eqn:Hhas; simpl.
    - repeat split; try apply Hok; auto.
    - destruct (inherited key) eqn:Hinh.
      + repeat split; try apply Hok; auto.
      + destruct (folders_ok_new folders key Hok Hhas Hinh) as [Hok' Hcount].
        split; [exact Hok'|]. split; [exact Hcount|].
        intros k items Hk. rewrite lookup_obj_set.
        destruct (key =? k) eqn:E; [|exact Hk].
        apply String.eqb_eq in E. subst k. unfold has_key in Hhas. now rewrite Hk in Hhas. }
  destruct H1 as (Hok1 & Hcount1 & Hkeep1).
  destruct (lookup key folders1) as [[| | | | | items |]|] eqn:Hlook; try discriminate.
  injection H as <-.
  assert (Hhas1 : has_key key folders1 = true) by (unfold has_key; now rewrite Hlook).
  split; [apply folders_ok_push; assumption|].
  split; [rewrite (item_count_push _ _ _ _ Hlook); now rewrite Hcount1|].
  split.
  - exists (items ++ [postman_item ep scripts])%list. split.
    + rewrite (lookup_obj_replace key key _ _ Hhas1), String.eqb_refl. reflexivity.
    + apply in_or_app. right. now left.
  - intros k items0 x Hk Hx. apply Hkeep1 in Hk.
    rewrite (lookup_obj_replace k key _ _ Hhas1).
    destruct (key =? k) eqn:E.
    + apply String.eqb_eq in E. subst k. rewrite Hlook in Hk. injection Hk as ->.
      eexists. split; [reflexivity|]. apply in_or_app. now left.
    + exists items0. split; assumption.
Qed.

Lemma forEach_postman_files (endpoints : list Endpoint) :
  forall folders folders',
    forEach_postman endpoints folders = Ret folders' ->
    folders_ok folders ->
    folders_ok folders'
    /\ item_count folders' = item_count folders + length endpoints
    /\ (forall ep, In ep endpoints ->
          exists key scripts items,
            toStr (first_tag ep) = Ret key
            /\ testScripts ep = Ret scripts
            /\ lookup key folders' = Some (JArr items)
            /\ In (postman_item ep scripts) items)
    /\ (forall k items x,
           lookup k folders = Some (JArr items) -> In x items ->
           exists items', lookup k folders' = Some (JArr items') /\ In x items').
Proof.
  induction endpoints as [|ep rest IH]; intros folders folders'; simpl.
  - intros [= <-] Hok. split; [exact Hok|]. split; [lia|]. split; [intros ep []|].
    intros k items x Hk Hx. now exists items.
  - destruct (postman_step ep folders) as [folders1| |] eqn:Hstep; try discriminate.
    simpl. intros Hrest Hok.
    destruct (postman_step_files _ _ _ Hstep Hok)
      as (key & scripts & Hkey & Hscripts & Hok1 & Hcount1 & (items & Hlook & Hin) & Hkeep1).
    destruct (IH _ _ Hrest Hok1) as (Hok' & Hcount' & Hfiled & Hkeep').
    split; [exact Hok'|]. split; [lia|]. split.
    + intros ep' [<-|Hep'].
      * destruct (Hkeep' _ _ _ Hlook Hin) as (items' & Hlook' & Hin').
        exists key, scripts, items'. repeat split; assumption.
      * now apply Hfiled.
    + intros k items0 x Hk Hx.
      destruct (Hkeep1 _ _ _ Hk Hx) as (items1 & Hk1 & Hx1).
      now apply (Hkeep' _ _ _ Hk1 Hx1).
Qed.

Lemma folders_ok_empty : folders_ok [].
Proof.
  split; [constructor|]. split; [constructor|]. reflexivity.
Qed.

(** X18.  When [generatePostman] reaches its download, the file is
    [Postman_Collection.json], its text is the rendering of a collection
    whose folders have pairwise distinct names, none of them a name that
    every object inherits, and the folders hold as many items in all as
    there are endpoints. *)
Theorem postman_folders_partition (endpoints : list Endpoint) (name : string)
        (file : download) :
  generatePostman endpoints name = Ret file ->
  exists folders,
    content file = text_of_json (stringify "" (postman_collection folders name))
    /\ fileName file = "Postman_Collection.json"
    /\ NoDup (map fst folders)
    /\ (forall key, In key (map fst folders) -> inherited key = false)
    /\ item_count folders = length endpoints.
Proof.
  unfold generatePostman.
  destruct (forEach_postman endpoints []) as [folders| |] eqn:E; try discriminate.
  simpl. intros [= <-]. exists folders.
  destruct (forEach_postman_files _ _ _ E folders_ok_empty)
    as ((Hnd & _ & Hinh) & Hcount & _ & _).
  split; [reflexivity|]. split; [reflexivity|]. split; [exact Hnd|]. split; [|exact Hcount].
  intros key Hin. destruct (inherited key) eqn:Hk; [|reflexivity].
  apply Hinh in Hk. apply has_key_In in Hk. contradiction.
Qed.

Lemma postman_folders_partition_witness :
  exists file folders,
    generatePostman tagged_endpoints "Swagger Collection" = Ret file
    /\ content file
       = text_of_json (stringify "" (postman_collection folders "Swagger Collection"))
    /\ fileName file = "Postman_Collection.json"
    /\ NoDup (map fst folders)
    /\ (forall key, In key (map fst folders) -> inherited key = false)
    /\ item_count folders = 3.
Proof.
  destruct (postman_folders_partition tagged_endpoints "Swagger Collection" _ eq_refl)
    as (folders & H).
  eexists. exists folders. split; [reflexivity | exact H].
Defined.

(** X19.  When the grouping of [generatePostman] returns, the item of
    every endpoint is in the folder named after the first tag of the
    endpoint, or in the folder [General] when the endpoint has no first
    tag; the other tags of an endpoint play no part. *)
Theorem postman_item_in_first_tag_folder (endpoints : list Endpoint) (folders : obj) :
  forEach_postman endpoints [] = Ret folders ->
  forall ep, In ep endpoints ->
    exists key scripts items,
      toStr (or_else (opt_get (tags ep) "0") (JStr "General")) = Ret key
      /\ testScripts ep = Ret scripts
      /\ lookup key folders = Some (JArr items)
      /\ In (postman_item ep scripts) items.
Proof.
  intros H. exact (proj1 (proj2 (proj2 (forEach_postman_files _ _ _ H folders_ok_empty)))).
Qed.

Lemma postman_item_in_first_tag_folder_witness :
  exists folders,
    forEach_postman tagged_endpoints [] = Ret folders
    /\ map fst folders = ["pets"; "General"]
    /\ forall ep, In ep tagged_endpoints ->
         exists key scripts items,
           toStr (or_else (opt_get (tags ep) "0") (JStr "General")) = Ret key
           /\ testScripts ep = Ret scripts
           /\ lookup key folders = Some (JArr items)
           /\ In (postman_item ep scripts) items.
Proof.
  eexists. split; [reflexivity|]. split; [reflexivity|].
  exact (postman_item_in_first_tag_folder tagged_endpoints _ eq_refl).
Defined.

Lemma testScripts_fuel_free (ep : Endpoint) : testScripts ep <> NoFuel.
Proof.
  unfold testScripts, successResponse, get.
  destruct (nullish (responses ep)); discriminate.
Qed.

Lemma postman_step_fuel_free (ep : Endpoint) (folders : obj) :
  postman_step ep folders <> NoFuel.
Proof.
  unfold postman_step.
  pose proof (toStr_fuel_free (first_tag ep)) as Hk.
  destruct (toStr (first_tag ep)) as [key| |]; [|discriminate|contradiction]. simpl.
  pose proof (testScripts_fuel_free ep) as Hs.
  destruct (testScripts ep) as [scripts| |]; [|discriminate|contradiction]. simpl.
  destruct (lookup key _) as [[| | | | | items |]|]; discriminate.
Qed.

Lemma postman_step_inherited (ep : Endpoint) (folders : obj) (key : string) :
  folders_ok folders ->
  toStr (first_tag ep) = Ret key -> inherited key = true ->
  postman_step ep folders = Raise TypeError.
Proof.
  intros (_ & _ & Hinh) Hkey Hk. unfold postman_step. rewrite Hkey. simpl.
  rewrite Hk, orb_true_r.
  pose proof (testScripts_fuel_free ep) as Hs.
  destruct (testScripts ep) as [scripts|[]|]; [|reflexivity|contradiction]. simpl.
  pose proof (Hinh key Hk) as Hno. unfold has_key in Hno.
  destruct (lookup key folders); [discriminate | reflexivity].
Qed.

(** X20.  An endpoint whose first tag is the name of a member that every
    object inherits ([constructor], [toString], [__proto__], ...) makes
    [generatePostman] throw a [TypeError], wherever it stands among the
    endpoints: nothing is downloaded. *)
Theorem postman_throws_on_inherited_tag (endpoints : list Endpoint) (name : string)
        (ep : Endpoint) (key : string) :
  In ep endpoints ->
  toStr (or_else (opt_get (tags ep) "0") (JStr "General")) = Ret key ->
  inherited key = true ->
  generatePostman endpoints name = Raise TypeError.
Proof.
  intros Hin Hkey Hk. unfold generatePostman.
  assert (H : forall folders, folders_ok folders ->
                              forEach_postman endpoints folders = Raise TypeError).
  { induction endpoints as [|ep0 rest IH]; [contradiction|]. intros folders Hok. simpl.
    destruct Hin as [->|Hin].
    - rewrite (postman_step_inherited ep folders key Hok Hkey Hk). reflexivity.
    - pose proof (postman_step_fuel_free ep0 folders) as Hfree.
      destruct (postman_step ep0 folders) as [folders1|[]|] eqn:Hstep;
        [|reflexivity|contradiction].
      simpl. apply (IH Hin).
      destruct (postman_step_files _ _ _ Hstep Hok) as (_ & _ & _ & _ & Hok1 & _).
      exact Hok1. }
  rewrite (H [] folders_ok_empty). reflexivity.
Qed.

Lemma postman_throws_on_inherited_tag_witness :
  In constructor_tagged (tagged_endpoints ++ [constructor_tagged])
  /\ toStr (or_else (opt_get (tags constructor_tagged) "0") (JStr "General"))
     = Ret "constructor"
  /\ inherited "constructor" = true
  /\ generatePostman (tagged_endpoints ++ [constructor_tagged]) "Swagger Collection"
     = Raise TypeError.
Proof.
  assert (Hin : In constructor_tagged (tagged_endpoints ++ [constructor_tagged]))
    by (apply in_or_app; right; left; reflexivity).
  split; [exact Hin|]. split; [reflexivity|]. split; [reflexivity|].
  exact (postman_throws_on_inherited_tag _ "Swagger Collection" constructor_tagged
           "constructor" Hin eq_refl eq_refl).
Defined.

Lemma split_on_parts_no_sep (sep : ascii) (s : string) :
  Forall (fun part => has_char sep part = false) (split_on sep s).
Proof.
  induction s as [|c s IH]; simpl; [repeat constructor|].
  destruct (Ascii.eqb c sep) eqn:E; [constructor; [reflexivity | exact IH]|].
  destruct (split_on sep s) as [|h t]; [repeat constructor; simpl; now rewrite E|].
  inversion IH as [|? ? Hh Ht]; subst. constructor; [|exact Ht].
  simpl. now rewrite E, Hh.
Qed.

(** X21.  The [path] array that [generatePostman] puts in the URL of an
    item has no empty segment and no segment with a slash in it; a slash
    at the start of the endpoint path leaves no trace in it. *)
Theorem postman_path_segments (text : string) :
  Forall (fun part => part <> "" /\ has_char "/" part = false) (path_segments text)
  /\ path_segments ("/" ++ text) = path_segments text.
Proof.
  split.
  - unfold path_segments. apply Forall_forall. intros part Hin.
    apply filter_In in Hin. destruct Hin as [Hin Hne]. split.
    + apply negb_true_iff, String.eqb_neq in Hne. exact Hne.
    + pose proof (split_on_parts_no_sep "/" text) as H. rewrite Forall_forall in H. auto.
  - reflexivity.
Qed.
